(** * GovChatbotFAQ spiders: a shallow embedding and its properties

    The four Scrapy spiders of [GovChatbotFAQ/spiders] turn pages and slides
    into [GovChatbotFAQItem] records.  This development embeds

    - the Python string operations the spiders use ([str.strip],
      [str.split], [str.join], [str.endswith], truthiness),
    - the three [re.sub] calls and the one [re.search] call, through a small
      backtracking matcher over flat patterns,
    - the per-container and per-slide extraction functions,
    - the callbacks' outputs (items and follow-up requests),

    and proves what the extraction does. *)

From Stdlib Require Import List NArith Arith Bool Lia String Ascii QArith.
From Stdlib Require Import Sorting.Permutation Sorting.Sorted.
Import ListNotations.
Close Scope Q_scope.

Set Implicit Arguments.

(** ** Python strings *)

(** A Python [str] is a sequence of Unicode code points. *)
Module PyStr.

Definition char := N.
Definition str := list char.

(** ASCII literals of the source, as code points. *)
Definition lit (s : string) : str := map N_of_ascii (list_ascii_of_string s).

Definition eqb_char (a b : char) : bool := N.eqb a b.

Fixpoint eqb (a b : str) : bool :=
  match a, b with
  | [], [] => true
  | x :: a', y :: b' => eqb_char x y && eqb a' b'
  | _, _ => false
  end.

(** [bool(s)] for a string: the empty string is falsy. *)
Definition truthy (s : str) : bool :=
  match s with [] => false | _ :: _ => true end.

(** [bool(o)] for an [Optional[str]]: [None] and [""] are falsy. *)
Definition truthy_opt (o : option str) : bool :=
  match o with None => false | Some s => truthy s end.

(** The code points for which [str.isspace] holds; [str.strip],
    [str.split] and the pattern [\s] all use this set. *)
Definition isspace (c : char) : bool :=
  (((9 <=? c) && (c <=? 13)) || ((28 <=? c) && (c <=? 32))
   || (c =? 133) || (c =? 160) || (c =? 5760)
   || ((8192 <=? c) && (c <=? 8202))
   || (c =? 8232) || (c =? 8233) || (c =? 8239) || (c =? 8287)
   || (c =? 12288))%N.

Fixpoint lstrip (s : str) : str :=
  match s with
  | [] => []
  | c :: r => if isspace c then lstrip r else s
  end.

Definition rstrip (s : str) : str := rev (lstrip (rev s)).

(** [s.strip()] *)
Definition strip (s : str) : str := rstrip (lstrip s).

(** [s.split()]: the maximal runs of non-whitespace, in order.  [cur] is the
    run being read, most recent character first. *)
Fixpoint split_aux (cur : str) (s : str) : list str :=
  match s with
  | [] => match cur with [] => [] | _ => [rev cur] end
  | c :: r =>
      if isspace c
      then match cur with
           | [] => split_aux [] r
           | _ => rev cur :: split_aux [] r
           end
      else split_aux (c :: cur) r
  end.

Definition split (s : str) : list str := split_aux [] s.

(** [sep.join(parts)] *)
Fixpoint join (sep : str) (parts : list str) : str :=
  match parts with
  | [] => []
  | p :: ps =>
      match ps with
      | [] => p
      | _ :: _ => p ++ sep ++ join sep ps
      end
  end.

Fixpoint startswith (s pre : str) : bool :=
  match pre, s with
  | [], _ => true
  | x :: pre', y :: s' => eqb_char x y && startswith s' pre'
  | _ :: _, [] => false
  end.

(** [s.endswith(suf)] *)
Definition endswith (s suf : str) : bool := startswith (rev s) (rev suf).

(** Reading aids for the whitespace properties. *)
Definition starts_ws (s : str) : bool :=
  match s with [] => false | c :: _ => isspace c end.

Definition ends_ws (s : str) : bool := starts_ws (rev s).

(** Two adjacent whitespace characters somewhere in [s]. *)
Fixpoint has_ws_pair (s : str) : bool :=
  match s with
  | [] => false
  | c1 :: r =>
      match r with
      | [] => false
      | c2 :: _ => (isspace c1 && isspace c2) || has_ws_pair r
      end
  end.

End PyStr.

Import PyStr.

(** ** The item type ([items.py]) *)

(** A field of a [scrapy.Item] is unset until assigned; an assigned field
    holds [None] or a value. *)
Inductive slot (A : Type) : Type :=
| Unset : slot A
| Null : slot A
| Val : A -> slot A.

Arguments Unset {A}.
Arguments Null {A}.
Arguments Val {A} _.

(** [question] and [answer] are assigned by every spider: [None] is
    Python's [None].  No spider ever stores a date, so dates carry no
    payload. *)
Record GovChatbotFAQItem : Type := mkItem {
  question : option str;
  answer : option str;
  category : str;
  tags : list str;
  date_posted : slot unit;
  date_updated : slot unit;
  image : slot str
}.

(** ** The text normalizer

    [" ".join(part.strip() for part in answer_parts if part.strip())], as
    written in [ecitizen_go_ke/faq.py] and [kra_go_ke/taxation.py]. *)
Definition normalize (fragments : list str) : str :=
  join (lit " ") (map strip (filter (fun part => truthy (strip part)) fragments)).

(** ** The structural list-item spider ([ecitizen_go_ke/faq.py]) *)
Module ECitizen.

(** What the two selectors return for one [li[id^="faq_"]] element:
    [.get()] gives the first matching text node or [None], [.getall()]
    every text node. *)
Record Faq : Type := mkFaq {
  question_sel : option str;
  answer_parts : list str
}.

(** The body of the [for faq in ...] loop. *)
Definition parse_faq (faq : Faq) : GovChatbotFAQItem :=
  let question := question_sel faq in
  let answer := normalize (answer_parts faq) in
  {| question := if truthy_opt question
                 then option_map strip question else None;
     answer := if truthy answer then Some (strip answer) else None;
     category := lit "eCitizen General";
     tags := [lit "eCitizen"];
     date_posted := Null;
     date_updated := Null;
     image := Unset |}.

(** [parse]: one item per container, in document order. *)
Definition parse (response : list Faq) : list GovChatbotFAQItem :=
  map parse_faq response.

End ECitizen.

(** ** Regular expressions

    The patterns of the spiders are sequences of literals, anchors, capture
    marks and repetitions of a single character set, so a pattern is a flat
    list of operations and matching is backtracking over the repetition
    counts, in the order in which [re] tries them: longest first for a
    greedy repetition, shortest first for a lazy one. *)
Module Sre.

Inductive op : Type :=
| Literal (c : char)
| Repeat (cls : char -> bool) (min : nat) (greedy : bool)
| GroupOpen (g : nat)
| GroupClose (g : nat)
| AtBeginning
| AtEnd.

Definition pattern := list op.

(** A literal piece of a pattern. *)
Definition literal (s : string) : pattern := map Literal (lit s).

(** Positions of the capture marks seen so far, latest first. *)
Record marks : Type := mkMarks {
  opens : list (nat * nat);
  closes : list (nat * nat)
}.

Definition no_marks : marks := {| opens := []; closes := [] |}.

(** Length of the longest prefix of [s] inside the character set. *)
Fixpoint run_length (cls : char -> bool) (s : str) : nat :=
  match s with
  | [] => 0
  | c :: r => if cls c then S (run_length cls r) else 0
  end.

Fixpoint first_some (A : Type) (f : nat -> option A) (ks : list nat) : option A :=
  match ks with
  | [] => None
  | k :: ks' =>
      match f k with
      | Some a => Some a
      | None => first_some f ks'
      end
  end.

(** The repetition counts to try, in order. *)
Definition counts (min n : nat) (greedy : bool) : list nat :=
  let up := seq min (S n - min) in
  if greedy then rev up else up.

(** [$] without [re.MULTILINE]: at the end of the string, or just before a
    newline that ends the string. *)
Definition at_end (rest : str) : bool :=
  match rest with
  | [] => true
  | c :: r => eqb_char c 10%N && match r with [] => true | _ => false end
  end.

(** Match [p] at position [i], where [rest] is the input from [i] on.
    Returns the end position and the marks of the first successful path. *)
Fixpoint exec (p : pattern) (i : nat) (rest : str) (mk : marks)
  : option (nat * marks) :=
  match p with
  | [] => Some (i, mk)
  | Literal c :: p' =>
      match rest with
      | x :: r => if eqb_char x c then exec p' (S i) r mk else None
      | [] => None
      end
  | Repeat cls min greedy :: p' =>
      first_some (fun k => exec p' (i + k) (skipn k rest) mk)
                 (counts min (run_length cls rest) greedy)
  | GroupOpen g :: p' =>
      exec p' i rest {| opens := (g, i) :: opens mk; closes := closes mk |}
  | GroupClose g :: p' =>
      exec p' i rest {| opens := opens mk; closes := (g, i) :: closes mk |}
  | AtBeginning :: p' =>
      match i with
      | O => exec p' i rest mk
      | S _ => None
      end
  | AtEnd :: p' => if at_end rest then exec p' i rest mk else None
  end.

(** A match object: start, end and marks. *)
Record match_ : Type := mkMatch {
  m_start : nat;
  m_end : nat;
  m_marks : marks
}.

(** [re.search]: the match at the leftmost position that has one. *)
Fixpoint search_from (p : pattern) (i : nat) (rest : str) : option match_ :=
  match exec p i rest no_marks with
  | Some (e, mk) => Some {| m_start := i; m_end := e; m_marks := mk |}
  | None =>
      match rest with
      | [] => None
      | _ :: r => search_from p (S i) r
      end
  end.

Definition search (p : pattern) (s : str) : option match_ :=
  search_from p 0 s.

Fixpoint lookup (g : nat) (l : list (nat * nat)) : option nat :=
  match l with
  | [] => None
  | (g', i) :: l' => if Nat.eqb g g' then Some i else lookup g l'
  end.

(** [m.group(g)] for a group that took part in the match. *)
Definition group (s : str) (m : match_) (g : nat) : str :=
  match lookup g (opens (m_marks m)), lookup g (closes (m_marks m)) with
  | Some b, Some e => firstn (e - b) (skipn b s)
  | _, _ => []
  end.

(** [re.sub(p, repl, s)] for a replacement without group references: every
    match, found left to right, is replaced and the text between matches
    is kept.  [skip] counts the characters of the current match still to
    be dropped.  (An empty match is replaced and the scan moves one
    character on; the three patterns given to [re.sub] here consume at
    least one character.) *)
Fixpoint sub_from (p : pattern) (repl : str) (i : nat) (rest : str)
  (skip : nat) : str :=
  match rest with
  | [] =>
      match skip, exec p i [] no_marks with
      | O, Some _ => repl
      | _, _ => []
      end
  | c :: r =>
      match skip with
      | S k => sub_from p repl (S i) r k
      | O =>
          match exec p i rest no_marks with
          | Some (e, _) =>
              match e - i with
              | O => repl ++ c :: sub_from p repl (S i) r 0
              | S k => repl ++ sub_from p repl (S i) r k
              end
          | None => c :: sub_from p repl (S i) r 0
          end
      end
  end.

Definition sub (p : pattern) (repl : str) (s : str) : str :=
  sub_from p repl 0 s 0.

(** Character sets. *)
Definition digit (c : char) : bool := (N.leb 48 c && N.leb c 57)%N.
Definition any (c : char) : bool := true.
Definition one_of (l : list char) (c : char) : bool := existsb (eqb_char c) l.

End Sre.

(** ** The accessibility-label spider ([health_go_ke/faq.py]) *)
Module Health.

(** The two selector results for one FAQ container. *)
Record Faq : Type := mkFaq {
  aria_label_sel : option str;   (* button span::attr(aria-label) *)
  span_text_sel : option str     (* button span::text *)
}.

(** The pattern of [re.search], with [re.DOTALL], under which [.] is any
    character: the literal [Question:], [\s*], group 1 holding a lazy
    [.*?], [\s*], a comma, [\s*], the literal [Answer:], [\s*], and group 2
    holding a greedy [.*]. *)
Definition qa_pattern : Sre.pattern :=
  Sre.literal "Question:" ++
  [Sre.Repeat isspace 0 true;
   Sre.GroupOpen 1; Sre.Repeat Sre.any 0 false; Sre.GroupClose 1;
   Sre.Repeat isspace 0 true]
  ++ Sre.literal "," ++
  [Sre.Repeat isspace 0 true]
  ++ Sre.literal "Answer:" ++
  [Sre.Repeat isspace 0 true;
   Sre.GroupOpen 2; Sre.Repeat Sre.any 0 true; Sre.GroupClose 2].

(** The question and answer picked by the [if aria_label: ... else: ...]
    block; the question can be [None] in the fallbacks. *)
Definition extract (faq : Faq) : option str * str :=
  match aria_label_sel faq with
  | Some aria_label =>
      if truthy aria_label then
        match Sre.search qa_pattern aria_label with
        | Some m =>
            (Some (strip (Sre.group aria_label m 1)),
             strip (Sre.group aria_label m 2))
        | None =>
            (span_text_sel faq, lit "Could not parse answer from aria-label.")
        end
      else (span_text_sel faq, lit "Could not find aria-label.")
  | None => (span_text_sel faq, lit "Could not find aria-label.")
  end.

(** The body of the loop of [parse_sha]: at most one item per container. *)
Definition parse_faq (faq : Faq) : list GovChatbotFAQItem :=
  let (question, answer) := extract faq in
  match question with
  | Some q =>
      if truthy q && truthy answer then
        [{| question := Some (strip q);
            answer := Some (strip answer);
            category := lit "Social Health Authority";
            tags := [lit "SHA"; lit "health"; lit "Kenya"];
            date_posted := Null;
            date_updated := Null;
            image := Unset |}]
      else []
  | None => []
  end.

Definition parse_sha (response : list Faq) : list GovChatbotFAQItem :=
  flat_map parse_faq response.

End Health.

(** ** The paginated-category spider ([kra_go_ke/taxation.py]) *)
Module Kra.

(** The selector results for one [div.faq-grid div.grid-item]. *)
Record GridItem : Type := mkGridItem {
  title_sel : option str;        (* p.title::text, first match *)
  accordion_parts : list str     (* div.ui-accordion-content ::text, all *)
}.

(** A fetched page, as the selectors of the two callbacks see it. *)
Record Response : Type := mkResponse {
  url : str;
  category_links : list str;     (* hrefs of the left-side menu *)
  active_sel : option str;       (* text of the active menu link *)
  grid_items : list GridItem;
  next_sel : option str          (* href of the pagination link titled Next *)
}.

Inductive callback : Type := ParseCb | ParseCategoryCb.

(** A callback yields items and follow-up requests. *)
Inductive output : Type :=
| Item (i : GovChatbotFAQItem)
| Request (target : str) (cb : callback).

(** [category_name.strip() if category_name else 'General'] *)
Definition category_of (category_name : option str) : str :=
  match category_name with
  | Some name => if truthy name then strip name else lit "General"
  | None => lit "General"
  end.

(** [[category_name.strip()] if category_name else []] *)
Definition tags_of (category_name : option str) : list str :=
  match category_name with
  | Some name => if truthy name then [strip name] else []
  | None => []
  end.

(** The body of the loop of [parse_category]. *)
Definition parse_item (category_name : option str) (faq : GridItem)
  : GovChatbotFAQItem :=
  let question := title_sel faq in
  let answer := normalize (accordion_parts faq) in
  {| question := if truthy_opt question
                 then option_map strip question else None;
     answer := Some answer;
     category := category_of category_name;
     tags := tags_of category_name;
     date_posted := Null;
     date_updated := Null;
     image := Unset |}.

Section Spider.

(** [response.follow] resolves the link against the page's address; the
    resolution ([urllib.parse.urljoin]) is the library's. *)
Variable urljoin : str -> str -> str.

Definition follow (response : Response) (link : str) (cb : callback) : output :=
  Request (urljoin (url response) link) cb.

(** [parse]: one request per category link. *)
Definition parse (response : Response) : list output :=
  map (fun link => follow response link ParseCategoryCb)
      (category_links response).

(** [parse_category]: the page's items, then the request for the next
    page when the page has a Next link. *)
Definition parse_category (response : Response) : list output :=
  map (fun faq => Item (parse_item (active_sel response) faq))
      (grid_items response)
  ++ match next_sel response with
     | Some next_page =>
         if truthy next_page
         then [follow response next_page ParseCategoryCb]
         else []
     | None => []
     end.

Definition run_callback (cb : callback) (response : Response) : list output :=
  match cb with
  | ParseCb => parse response
  | ParseCategoryCb => parse_category response
  end.

Definition items_of (outs : list output) : list GovChatbotFAQItem :=
  flat_map (fun o => match o with Item i => [i] | Request _ _ => [] end) outs.

Definition requests_of (outs : list output) : list (str * callback) :=
  flat_map (fun o => match o with Item _ => [] | Request u cb => [(u, cb)] end)
           outs.

(** The site: the page served at each address. *)
Variable fetch : str -> Response.

(** Traversal state: the requests still to fetch, the addresses fetched so
    far and the items emitted so far, both oldest first. *)
Record crawl : Type := mkCrawl {
  pending : list (str * callback);
  fetched : list str;
  emitted : list GovChatbotFAQItem
}.

(** Modelled from the spec: the traversal controller, which is the crawl
    engine and not part of the repository.  It takes a scheduled request,
    fetches the page, runs the request's handler on it, hands the items
    to the sink and schedules the requests the handler produced; it keeps
    no record of the addresses it has seen. *)
Definition step (req : str * callback) (rest : list (str * callback))
  (st : crawl) : crawl :=
  let outs := run_callback (snd req) (fetch (fst req)) in
  {| pending := requests_of outs ++ rest;
     fetched := fetched st ++ [fst req];
     emitted := emitted st ++ items_of outs |}.

(** The controller's loop, for at most [fuel] fetches: [Some] with the
    final state when no request is left, [None] when requests remain after
    [fuel] fetches. *)
Fixpoint run (fuel : nat) (st : crawl) : option crawl :=
  match pending st with
  | [] => Some st
  | req :: rest =>
      match fuel with
      | O => None
      | S fuel' => run fuel' (step req rest st)
      end
  end.

(** The traversal of one category, from its first page. *)
Definition start_category (first_page : str) : crawl :=
  {| pending := [(first_page, ParseCategoryCb)]; fetched := []; emitted := [] |}.

(** The address the Next link of the page at [u] leads to, if the page has
    such a link. *)
Definition next_url (u : str) : option str :=
  match next_sel (fetch u) with
  | Some next_page =>
      if truthy next_page
      then Some (urljoin (url (fetch u)) next_page) else None
  | None => None
  end.

(** The page at [u] starts a chain of exactly [n] Next links that ends on a
    page without one. *)
Fixpoint ends_after (n : nat) (u : str) : Prop :=
  match n with
  | O => next_url u = None
  | S k => exists u', next_url u = Some u' /\ ends_after k u'
  end.

(** The first [n + 1] addresses of the chain from [u]. *)
Fixpoint chain (n : nat) (u : str) : list str :=
  u :: match n with
       | O => []
       | S k => match next_url u with
                | Some u' => chain k u'
                | None => []
                end
       end.

End Spider.

(** A site whose two pages link to each other, with absolute links. *)
Definition absolute (base link : str) : str := link.

Definition loop_site (u : str) : Response :=
  {| url := u;
     category_links := [];
     active_sel := None;
     grid_items := [];
     next_sel := Some (if PyStr.eqb u (lit "/faqs?page=1")
                       then lit "/faqs?page=2" else lit "/faqs?page=1") |}.

End Kra.

(** ** The slide spider ([googleslide/google_slides_faq_spider.py]) *)
Module Slides.

(** The presentation, as the Slides API returns it: JSON objects whose keys
    may be absent.  Numbers are rationals. *)
Record Dimension : Type := mkDimension { magnitude : option Q }.

Record TextStyle : Type := mkTextStyle {
  fontSize : option Dimension;
  bold : option bool
}.

Record TextRun : Type := mkTextRun {
  content : option str;
  style : option TextStyle
}.

Record TextElement : Type := mkTextElement { textRun : option TextRun }.

Record TextContent : Type := mkTextContent {
  textElements : option (list TextElement)
}.

Record Shape : Type := mkShape { text : option TextContent }.

Record Transform : Type := mkTransform { translateY : option Q }.

Record Image : Type := mkImage { contentUrl : option str }.

Record PageElement : Type := mkPageElement {
  shape : option Shape;
  transform : option Transform;
  pe_image : option Image        (* key [image] *)
}.

Record Slide : Type := mkSlide { pageElements : option (list PageElement) }.

Record Presentation : Type := mkPresentation { slides : option (list Slide) }.

(** [d.get(key, default)] *)
Definition get (A : Type) (o : option A) (default : A) : A :=
  match o with Some a => a | None => default end.

(** The entries of [text_elements]. *)
Record TextEntry : Type := mkTextEntry {
  te_text : str;
  te_translateY : Q;
  te_is_title : bool
}.

(** [is_title_element]; a missing key or an empty [textElements] list is
    the [except (KeyError, IndexError)] branch. *)
Definition is_title_element (element : PageElement) : bool :=
  match shape element with
  | Some sh =>
      match text sh with
      | Some tx =>
          match textElements tx with
          | Some (first :: _) =>
              let text_style :=
                get (style (get (textRun first) (mkTextRun None None)))
                    (mkTextStyle None None) in
              let font_size :=
                get (magnitude (get (fontSize text_style) (mkDimension None)))
                    (12 # 1)%Q in
              let is_bold := get (bold text_style) false in
              is_bold && Qle_bool (18 # 1)%Q font_size
          | _ => false
          end
      | None => false
      end
  | None => false
  end.

(** The [for element in slide.get('pageElements', [])] loop. *)
Definition collect (slide : Slide) : list TextEntry :=
  flat_map
    (fun element =>
       match shape element with
       | Some sh =>
           match text sh with
           | Some tx =>
               let text :=
                 strip (List.concat
                   (map (fun te =>
                           get (content (get (textRun te) (mkTextRun None None)))
                               [])
                        (get (textElements tx) []))) in
               if truthy text then
                 [{| te_text := text;
                     te_translateY :=
                       get (translateY (get (transform element)
                                            (mkTransform None)))
                           (0 # 1)%Q;
                     te_is_title := is_title_element element |}]
               else []
           | None => []
           end
       | None => []
       end)
    (get (pageElements slide) []).

(** [list.sort(key=...)] is stable: an entry moves before the entries after
    it only when its key is strictly smaller. *)
Fixpoint insert (x : TextEntry) (l : list TextEntry) : list TextEntry :=
  match l with
  | [] => [x]
  | y :: l' =>
      if Qle_bool (te_translateY x) (te_translateY y)
      then x :: l
      else y :: insert x l'
  end.

Definition sort (l : list TextEntry) : list TextEntry :=
  fold_right insert [] l.

(** [next((t['text'] for t in text_elements if cond(t)), default)] *)
Definition next_text (cond : TextEntry -> bool) (l : list TextEntry)
  (default : option str) : option str :=
  match find cond l with
  | Some t => Some (te_text t)
  | None => default
  end.

Definition word_count (s : str) : nat := List.length (split s).

(** The question before cleaning: the first title-like entry, else the
    first entry of more than one word, else the first entry. *)
Definition pick_title (text_elements : list TextEntry) : option str :=
  let title := next_text te_is_title text_elements None in
  if negb (truthy_opt title)
     && match text_elements with [] => false | _ :: _ => true end
  then next_text (fun t => Nat.ltb 1 (word_count (te_text t))) text_elements
                 (match text_elements with
                  | t :: _ => Some (te_text t)
                  | [] => Some (lit "Untitled")
                  end)
  else title.

(** The pattern that removes numbering: at the beginning, one or more of
    [0-9], then any number of full stops, closing parentheses and
    whitespace. *)
Definition numbering : Sre.pattern :=
  [Sre.AtBeginning;
   Sre.Repeat Sre.digit 1 true;
   Sre.Repeat (fun c => Sre.one_of (lit ".)") c || isspace c) 0 true].

(** The pattern that removes trailing punctuation: one or more of colon,
    hyphen and em dash (U+2014), at the end. *)
Definition trailing_punctuation : Sre.pattern :=
  [Sre.Repeat (Sre.one_of (lit ":-" ++ [8212%N])) 1 true; Sre.AtEnd].

(** [\s+] *)
Definition whitespace_run : Sre.pattern := [Sre.Repeat isspace 1 true].

Section Spider.

(** [str.islower] and [str.upper] on one character: the interpreter's
    Unicode case tables. *)
Variable islower : char -> bool.
Variable upper : char -> str.

Definition clean_title (title : option str) : str :=
  match title with
  | None => lit "Untitled"
  | Some title0 =>
      if negb (truthy title0) then lit "Untitled" else
      let title1 := Sre.sub numbering [] title0 in
      let title2 := Sre.sub trailing_punctuation [] title1 in
      let title3 := strip title2 in
      let title4 :=
        match title3 with
        | c :: r => if islower c then upper c ++ r else title3
        | [] => title3
        end in
      if truthy title4 then title4 else lit "Untitled"
  end.

Definition build_description (text_elements : list TextEntry) (title : str)
  : str :=
  let description_parts :=
    filter (fun text => negb (PyStr.eqb text title || Nat.ltb (word_count text) 2))
           (map (fun t => strip (te_text t)) text_elements) in
  match description_parts with
  | [] => lit "No description available"
  | _ :: _ =>
      let description := join (lit ". ") description_parts in
      let description :=
        if endswith description (lit ".")
        then description else description ++ lit "." in
      Sre.sub whitespace_run (lit " ") description
  end.

(** The first page element that has an image with a content address. *)
Definition image_url (slide : Slide) : option str :=
  match
    find (fun e => match pe_image e with
                   | Some im => match contentUrl im with
                                | Some _ => true
                                | None => false
                                end
                   | None => false
                   end)
         (get (pageElements slide) [])
  with
  | Some e => contentUrl (get (pe_image e) (mkImage None))
  | None => None
  end.

(** The body of the [for slide in slides] loop: the items it yields. *)
Definition process_slide (slide : Slide) : list GovChatbotFAQItem :=
  let text_elements := sort (collect slide) in
  let title := clean_title (pick_title text_elements) in
  let description := build_description text_elements title in
  let url := image_url slide in
  if truthy title || truthy description || truthy_opt url then
    [{| question := Some title;
        answer := Some description;
        category := lit "Google Slide Presentation";
        tags := [lit "google"; lit "slide"; lit "extracted"];
        date_posted := Unset;
        date_updated := Unset;
        image := match url with Some u => Val u | None => Null end |}]
  else [].

(** *** The run of [start] *)

(** The credentials and the service object of the client library. *)
Variable Credentials : Type.
Variable Service : Type.

(** What [start] does to the outside, in order. *)
Inductive event : Type :=
| LoadCredentials (file : str)            (* from_service_account_file *)
| BuildService                            (* build('slides', 'v1', ...) *)
| GetPresentation (presentation_id : str) (* presentations().get().execute() *)
| LogError (message : str).               (* self.logger.error *)

(** The outside: the setting, and the three calls that can raise, each
    answering with the exception's text or with its result. *)
Record World : Type := mkWorld {
  service_account_file : option str;
  from_service_account_file : str -> str + Credentials;
  build : Credentials -> str + Service;
  execute_get : Service -> str -> str + Presentation
}.

(** A run of [start]: the events in order, the items yielded, and the
    exception that ended the run if one was not caught. *)
Record outcome : Type := mkOutcome {
  events : list event;
  yielded : list GovChatbotFAQItem;
  raised : option str
}.

Definition presentation_id : str :=
  lit "1mY68zOIQBUHkht2wiKgzkIQpPuxh1Oihj2rn4AlMcDM".

Definition setting_missing : outcome :=
  {| events := [LogError (lit "GOOGLE_SERVICE_ACCOUNT_FILE setting missing")];
     yielded := [];
     raised := None |}.

Definition start (w : World) : outcome :=
  match service_account_file w with
  | None => setting_missing
  | Some file =>
      if negb (truthy file) then setting_missing else
      match from_service_account_file w file with
      | inl e =>
          {| events := [LoadCredentials file;
                        LogError (lit "Credential error: " ++ e)];
             yielded := [];
             raised := None |}
      | inr creds =>
          match build w creds with
          | inl e =>
              {| events := [LoadCredentials file; BuildService];
                 yielded := [];
                 raised := Some e |}
          | inr slides_service =>
              match execute_get w slides_service presentation_id with
              | inl e =>
                  {| events := [LoadCredentials file; BuildService;
                                GetPresentation presentation_id;
                                LogError (lit "API error: " ++ e)];
                     yielded := [];
                     raised := None |}
              | inr presentation =>
                  {| events := [LoadCredentials file; BuildService;
                                GetPresentation presentation_id];
                     yielded :=
                       flat_map process_slide (get (slides presentation) []);
                     raised := None |}
              end
          end
      end
  end.

End Spider.

(** The case tables on the letters [a] to [z]; other characters are left
    alone.  They agree with the interpreter's on ASCII text. *)
Definition ascii_islower (c : char) : bool := (N.leb 97 c && N.leb c 122)%N.
Definition ascii_upper (c : char) : str :=
  if ascii_islower c then [(c - 32)%N] else [c].

End Slides.

(** ** Definitions for the statements *)

(** The normalizer's output is free of whitespace pairs and of whitespace at
    either end. *)
Definition normalize_clean (fragments : list str) : Prop :=
  has_ws_pair (normalize fragments) = false
  /\ starts_ws (normalize fragments) = false
  /\ ends_ws (normalize fragments) = false.

(** A part that is not empty and has no whitespace at either end. *)
Definition trimmed (p : str) : bool :=
  truthy p && negb (starts_ws p) && negb (ends_ws p).

(** The question of a container is [None] when nothing was selected and is
    never the empty string. *)
Definition question_null_never_empty (faq : ECitizen.Faq) : Prop :=
  (ECitizen.question_sel faq = None ->
   question (ECitizen.parse_faq faq) = None)
  /\ question (ECitizen.parse_faq faq) <> Some [].

(** The answer of a slide as C1 words it: the entries other than the one
    equal to the question as picked, before cleaning. *)
Definition answer_excluding_picked_title (slide : Slides.Slide) : str :=
  let text_elements := Slides.sort (Slides.collect slide) in
  Slides.build_description text_elements
    (Slides.get (Slides.pick_title text_elements) (lit "Untitled")).

(** A page element with one text run. *)
Definition text_box (content : str) (y : Q) (is_bold : bool) (size : Q)
  : Slides.PageElement :=
  {| Slides.shape :=
       Some {| Slides.text :=
         Some {| Slides.textElements :=
           Some [{| Slides.textRun :=
             Some {| Slides.content := Some content;
                     Slides.style :=
                       Some {| Slides.fontSize :=
                                 Some {| Slides.magnitude := Some size |};
                               Slides.bold := Some is_bold |} |} |}] |} |};
     Slides.transform := Some {| Slides.translateY := Some y |};
     Slides.pe_image := None |}.

(** A slide with a numbered bold heading above one sentence. *)
Definition benefits_slide : Slides.Slide :=
  {| Slides.pageElements :=
       Some [text_box (lit "1. benefits:") (10 # 1)%Q true (24 # 1)%Q;
             text_box (lit "You must be a citizen.") (50 # 1)%Q false (12 # 1)%Q] |}.

(** The ways in which [start] fails before it has a presentation. *)
Definition setting_absent (C S : Type) (w : Slides.World C S) : Prop :=
  truthy_opt (Slides.service_account_file w) = false.

Definition credentials_fail (C S : Type) (w : Slides.World C S) : Prop :=
  exists file e,
    Slides.service_account_file w = Some file /\ truthy file = true
    /\ Slides.from_service_account_file w file = inl e.

Definition fetch_fails (C S : Type) (w : Slides.World C S) : Prop :=
  exists file creds service e,
    Slides.service_account_file w = Some file /\ truthy file = true
    /\ Slides.from_service_account_file w file = inr creds
    /\ Slides.build w creds = inr service
    /\ Slides.execute_get w service Slides.presentation_id = inl e.

(** How often each outside call was made. *)
Definition loads (evs : list Slides.event) : nat :=
  List.length (filter (fun e => match e with
                                | Slides.LoadCredentials _ => true
                                | _ => false
                                end) evs).

Definition gets (evs : list Slides.event) : nat :=
  List.length (filter (fun e => match e with
                                | Slides.GetPresentation _ => true
                                | _ => false
                                end) evs).

(** A world without the setting. *)
Definition unconfigured : Slides.World unit unit :=
  {| Slides.service_account_file := None;
     Slides.from_service_account_file := fun _ => inr tt;
     Slides.build := fun _ => inr tt;
     Slides.execute_get := fun _ _ => inr {| Slides.slides := None |} |}.

(** A world whose presentation cannot be fetched. *)
Definition unreachable : Slides.World unit unit :=
  {| Slides.service_account_file := Some (lit "service-account.json");
     Slides.from_service_account_file := fun _ => inr tt;
     Slides.build := fun _ => inr tt;
     Slides.execute_get := fun _ _ => inl (lit "HttpError 503") |}.

(** The slide of the heading [Eligibility] above one sentence. *)
Definition eligibility_slide : Slides.Slide :=
  {| Slides.pageElements :=
       Some [text_box (lit "You must be a citizen and over 18.")
                      (50 # 1)%Q false (12 # 1)%Q;
             text_box (lit "Eligibility") (10 # 1)%Q true (24 # 1)%Q] |}.

(** An item field that holds a non-empty value. *)
Definition truthy_slot (s : slot str) : bool :=
  match s with Val u => truthy u | _ => false end.

(** The items of one category page, in page order. *)
Definition page_items (response : Kra.Response) : list GovChatbotFAQItem :=
  map (Kra.parse_item (Kra.active_sel response)) (Kra.grid_items response).

(** A category of two pages: two questions on the first, which links to
    the second, and one question on the second, which links nowhere. *)
Definition vat_page1 : Kra.Response :=
  {| Kra.url := lit "/faqs/vat";
     Kra.category_links := [];
     Kra.active_sel := Some (lit " VAT ");
     Kra.grid_items :=
       [Kra.mkGridItem (Some (lit "What is VAT?")) [lit "A tax "; lit "on sales."];
        Kra.mkGridItem (Some (lit "Who pays VAT?")) [lit "Registered traders."]];
     Kra.next_sel := Some (lit "/faqs/vat?page=2") |}.

Definition vat_page2 : Kra.Response :=
  {| Kra.url := lit "/faqs/vat?page=2";
     Kra.category_links := [];
     Kra.active_sel := Some (lit " VAT ");
     Kra.grid_items :=
       [Kra.mkGridItem (Some (lit "When is VAT due?")) [lit "Monthly."]];
     Kra.next_sel := None |}.

Definition vat_site (u : str) : Kra.Response :=
  if PyStr.eqb u (lit "/faqs/vat?page=2") then vat_page2 else vat_page1.

(** One entry is not below another. *)
Definition above (a b : Slides.TextEntry) : Prop :=
  (Slides.te_translateY a <= Slides.te_translateY b)%Q.

(** ** Further definitions for the statements *)

(** A fragment that strips to nothing. *)
Definition blank (part : str) : bool := negb (truthy (strip part)).

(** [sub in s] for strings. *)
Fixpoint contains (s sub : str) : bool :=
  startswith s sub
  || match s with
     | [] => false
     | _ :: r => contains r sub
     end.


(** An accessibility label in the expected layout, with any whitespace
    [w1] to [w4] around its parts. *)
Definition qa_label (w1 q w2 w3 w4 a : str) : str :=
  lit "Question:" ++ w1 ++ q ++ w2 ++ lit "," ++ w3 ++ lit "Answer:" ++ w4 ++ a.

(** The entries of [l] at height [y], in the order of [l]. *)
Definition at_height (y : Q) (l : list Slides.TextEntry)
  : list Slides.TextEntry :=
  filter (fun t => Qeq_bool (Slides.te_translateY t) y) l.

(** A title without its leading digits and the full stops, closing
    parentheses and whitespace after them; a title that does not start
    with a digit is left as it is. *)
Definition drop_numbering (s : str) : str :=
  match Sre.run_length Sre.digit s with
  | O => s
  | S d =>
      let s' := skipn (S d) s in
      skipn (Sre.run_length
               (fun c => Sre.one_of (lit ".)") c || isspace c) s') s'
  end.

(** A world in which every call succeeds and the presentation has the two
    example slides. *)
Definition two_slide_world : Slides.World unit unit :=
  {| Slides.service_account_file := Some (lit "service-account.json");
     Slides.from_service_account_file := fun _ => inr tt;
     Slides.build := fun _ => inr tt;
     Slides.execute_get := fun _ _ =>
       inr {| Slides.slides := Some [eligibility_slide; benefits_slide] |} |}.

(** No comma in [q]. *)
Definition comma_free (q : str) : bool :=
  forallb (fun c => negb (eqb_char c 44%N)) q.


(** The requests for the first pages of the categories of an index
    page. *)
Definition category_urls (urljoin : str -> str -> str)
  (index : Kra.Response) : list str :=
  map (urljoin (Kra.url index)) (Kra.category_links index).

(** The traversal of the whole site, from its index page. *)
Definition start_site (index_page : str) : Kra.crawl :=
  {| Kra.pending := [(index_page, Kra.ParseCb)];
     Kra.fetched := [];
     Kra.emitted := [] |}.

(** A site with an index page that links to the one category of
    [vat_site]. *)
Definition vat_index : Kra.Response :=
  {| Kra.url := lit "/faqs";
     Kra.category_links := [lit "/faqs/vat"];
     Kra.active_sel := None;
     Kra.grid_items := [];
     Kra.next_sel := None |}.

Definition indexed_site (u : str) : Kra.Response :=
  if PyStr.eqb u (lit "/faqs") then vat_index else vat_site u.

(** The pages of the categories in [urls], category after category, where
    [len u] is the number of Next links of the chain from [u]. *)
Definition category_pages (urljoin : str -> str -> str)
  (fetch : str -> Kra.Response) (len : str -> nat) (urls : list str)
  : list str :=
  flat_map (fun u => Kra.chain urljoin fetch (len u) u) urls.

(** The characters of the trailing-punctuation pattern. *)
Definition trailing_mark (c : char) : bool :=
  Sre.one_of (lit ":-" ++ [8212%N]) c.

Fixpoint drop_while (cls : char -> bool) (s : str) : str :=
  match s with
  | [] => []
  | c :: r => if cls c then drop_while cls r else s
  end.

(** [s] without the characters of the set at its end. *)
Definition rstrip_set (cls : char -> bool) (s : str) : str :=
  rev (drop_while cls (rev s)).

(** [s] split into its body and the newline that ends it, if one does. *)
Fixpoint chop_newline (s : str) : str * str :=
  match s with
  | [] => ([], [])
  | c :: r =>
      match r with
      | [] => if eqb_char c 10%N then ([], [c]) else ([c], [])
      | _ :: _ => let (body, tail) := chop_newline r in (c :: body, tail)
      end
  end.

(** A title without the colons, hyphens and em dashes at its end, or
    just before the newline that ends it. *)
Definition drop_trailing (s : str) : str :=
  let (body, tail) := chop_newline s in
  rstrip_set trailing_mark body ++ tail.

(** The second page of the category with no menu link marked active. *)
Definition vat_page2_unmarked : Kra.Response :=
  {| Kra.url := lit "/faqs/vat?page=2";
     Kra.category_links := [];
     Kra.active_sel := None;
     Kra.grid_items :=
       [Kra.mkGridItem (Some (lit "When is VAT due?")) [lit "Monthly."]];
     Kra.next_sel := None |}.

Definition unmarked_site (u : str) : Kra.Response :=
  if PyStr.eqb u (lit "/faqs/vat?page=2") then vat_page2_unmarked
  else vat_page1.

(** The pages of C6: a first page with two grid items and a Next link
    that leads to a page with one grid item and no Next link. *)
Definition two_page_category (urljoin : str -> str -> str)
  (fetch : str -> Kra.Response) (first : str) : Prop :=
  exists a b c link,
    Kra.grid_items (fetch first) = [a; b]
    /\ Kra.next_sel (fetch first) = Some link
    /\ truthy link = true
    /\ Kra.grid_items (fetch (urljoin (Kra.url (fetch first)) link)) = [c]
    /\ truthy_opt (Kra.next_sel (fetch (urljoin (Kra.url (fetch first)) link)))
       = false.

(** The outcome C6 states for them: the traversal ends with exactly three
    records, which all carry one category name. *)
Definition three_records_one_category (urljoin : str -> str -> str)
  (fetch : str -> Kra.Response) (first : str) : Prop :=
  exists fuel st name,
    Kra.run urljoin fetch fuel (Kra.start_category first) = Some st
    /\ List.length (Kra.emitted st) = 3
    /\ Forall (fun item => category item = name) (Kra.emitted st).

(** * Properties *)

(** ** Strings *)

Lemma eqb_refl (s : str) : PyStr.eqb s s = true.
Proof.
  induction s as [|c s IH]; simpl; [reflexivity|].
  unfold eqb_char. now rewrite N.eqb_refl.
Qed.

Lemma eqb_eq (a b : str) : PyStr.eqb a b = true <-> a = b.
Proof.
  split.
  - revert b. induction a as [|x a IH]; intros [|y b]; simpl; try discriminate.
    + reflexivity.
    + intros H. apply andb_true_iff in H as [Hx Hab].
      apply N.eqb_eq in Hx. subst. f_equal. now apply IH.
  - intros ->. apply eqb_refl.
Qed.

Lemma lstrip_starts_ws (s : str) : starts_ws (lstrip s) = false.
Proof.
  induction s as [|c s IH]; simpl; [reflexivity|].
  destruct (isspace c) eqn:Hc; [exact IH|]. simpl. exact Hc.
Qed.

Lemma lstrip_fixed (s : str) : starts_ws s = false -> lstrip s = s.
Proof.
  destruct s as [|c s]; simpl; [reflexivity|]. now intros ->.
Qed.

Lemma lstrip_suffix (s : str) : exists w, s = w ++ lstrip s.
Proof.
  induction s as [|c s [w Hw]]; simpl.
  - now exists [].
  - destruct (isspace c).
    + exists (c :: w). simpl. now f_equal.
    + now exists [].
Qed.

Lemma rstrip_prefix (s : str) : exists w, s = rstrip s ++ w.
Proof.
  unfold rstrip. destruct (lstrip_suffix (rev s)) as [w Hw].
  exists (rev w). rewrite <- rev_app_distr, <- Hw. now rewrite rev_involutive.
Qed.

Lemma rstrip_starts_ws (s : str) :
  starts_ws s = false -> starts_ws (rstrip s) = false.
Proof.
  destruct (rstrip_prefix s) as [w Hw]. intros H.
  destruct (rstrip s) as [|c r]; [reflexivity|].
  rewrite Hw in H. exact H.
Qed.

Lemma rstrip_ends_ws (s : str) : ends_ws (rstrip s) = false.
Proof.
  unfold ends_ws, rstrip. rewrite rev_involutive. apply lstrip_starts_ws.
Qed.

Lemma rstrip_fixed (s : str) : ends_ws s = false -> rstrip s = s.
Proof.
  unfold ends_ws, rstrip. intros H. rewrite (lstrip_fixed _ H).
  apply rev_involutive.
Qed.

Lemma strip_starts_ws (s : str) : starts_ws (strip s) = false.
Proof. apply rstrip_starts_ws, lstrip_starts_ws. Qed.

Lemma strip_ends_ws (s : str) : ends_ws (strip s) = false.
Proof. apply rstrip_ends_ws. Qed.

Lemma strip_fixed (s : str) :
  starts_ws s = false -> ends_ws s = false -> strip s = s.
Proof.
  intros Hs He. unfold strip. rewrite (lstrip_fixed _ Hs). now apply rstrip_fixed.
Qed.

Lemma strip_strip (s : str) : strip (strip s) = strip s.
Proof. apply strip_fixed; [apply strip_starts_ws | apply strip_ends_ws]. Qed.

Lemma rev_truthy (s : str) : truthy (rev s) = truthy s.
Proof.
  destruct s as [|c s]; [reflexivity|]. simpl.
  destruct (rev s ++ [c]) eqn:E; [|reflexivity].
  now destruct (rev s).
Qed.

Lemma ends_ws_app (a b : str) :
  ends_ws (a ++ b) = if truthy b then ends_ws b else ends_ws a.
Proof.
  unfold ends_ws. rewrite rev_app_distr.
  rewrite <- (rev_truthy b).
  destruct (rev b); reflexivity.
Qed.

Lemma ends_ws_cons (c : char) (s : str) :
  ends_ws (c :: s) = if truthy s then ends_ws s else isspace c.
Proof. apply (ends_ws_app [c] s). Qed.

Lemma has_ws_pair_app (a b : str) :
  has_ws_pair (a ++ b)
  = has_ws_pair a || has_ws_pair b || (ends_ws a && starts_ws b).
Proof.
  induction a as [|c a IH].
  - simpl. now rewrite orb_false_r.
  - destruct a as [|c' a].
    + destruct b as [|d b]; simpl.
      * now rewrite andb_false_r.
      * unfold ends_ws. simpl. now rewrite orb_comm.
    + change (has_ws_pair ((c :: c' :: a) ++ b))
        with ((isspace c && isspace c') || has_ws_pair ((c' :: a) ++ b)).
      rewrite IH.
      change (has_ws_pair (c :: c' :: a))
        with ((isspace c && isspace c') || has_ws_pair (c' :: a)).
      rewrite (ends_ws_cons c (c' :: a)). simpl truthy. cbv iota.
      now rewrite !orb_assoc.
Qed.

(** ** Joining trimmed parts *)

Lemma trimmed_strip (s : str) : truthy (strip s) = true -> trimmed (strip s) = true.
Proof.
  intros H. unfold trimmed. now rewrite H, strip_starts_ws, strip_ends_ws.
Qed.

Lemma kept_parts_trimmed (fragments : list str) :
  forallb trimmed
    (map strip (filter (fun part => truthy (strip part)) fragments)) = true.
Proof.
  induction fragments as [|f fs IH]; simpl; [reflexivity|].
  destruct (truthy (strip f)) eqn:Hf; simpl; [|exact IH].
  now rewrite trimmed_strip, IH.
Qed.

Lemma join_truthy (sep : str) (p : str) (ps : list str) :
  truthy p = true -> truthy (join sep (p :: ps)) = true.
Proof.
  intros H. destruct p; [discriminate|]. simpl. now destruct ps.
Qed.

Lemma join_starts_ws (sep : str) (parts : list str) :
  forallb trimmed parts = true -> starts_ws (join sep parts) = false.
Proof.
  destruct parts as [|p ps]; [reflexivity|].
  simpl forallb. unfold trimmed. intros H.
  apply andb_true_iff in H as [H _].
  apply andb_true_iff in H as [H _].
  apply andb_true_iff in H as [Hp Hs].
  apply negb_true_iff in Hs.
  destruct p as [|c p]; [discriminate|].
  simpl in *. now destruct ps.
Qed.

Lemma join_ends_ws (sep : str) (parts : list str) :
  forallb trimmed parts = true -> ends_ws (join sep parts) = false.
Proof.
  induction parts as [|p ps IH]; [reflexivity|].
  simpl forallb. intros H. apply andb_true_iff in H as [Hp Hps].
  destruct ps as [|q ps].
  - simpl. unfold trimmed in Hp.
    apply andb_true_iff in Hp as [_ He]. now apply negb_true_iff in He.
  - change (join sep (p :: q :: ps)) with (p ++ sep ++ join sep (q :: ps)).
    rewrite !ends_ws_app.
    assert (Hq : truthy (join sep (q :: ps)) = true).
    { apply join_truthy. simpl in Hps. unfold trimmed in Hps.
      apply andb_true_iff in Hps as [Hq _].
      apply andb_true_iff in Hq as [Hq _].
      now apply andb_true_iff in Hq as [Hq _]. }
    rewrite Hq.
    destruct (sep ++ join sep (q :: ps)) eqn:E.
    + apply app_eq_nil in E as [_ E]. rewrite E in Hq. discriminate.
    + simpl truthy. cbv iota. now apply IH.
Qed.

Lemma join_space_ws_pair (parts : list str) :
  forallb trimmed parts = true ->
  has_ws_pair (join (lit " ") parts) = existsb has_ws_pair parts.
Proof.
  induction parts as [|p ps IH]; [reflexivity|].
  intros H. pose proof H as H'. simpl in H'.
  apply andb_true_iff in H' as [Hp Hps].
  destruct ps as [|q ps].
  - simpl. now rewrite orb_false_r.
  - change (join (lit " ") (p :: q :: ps))
      with (p ++ lit " " ++ join (lit " ") (q :: ps)).
    rewrite has_ws_pair_app.
    unfold trimmed in Hp.
    apply andb_true_iff in Hp as [_ He]. apply negb_true_iff in He.
    rewrite He. simpl andb. rewrite orb_false_r.
    change (existsb has_ws_pair (p :: q :: ps))
      with (has_ws_pair p || existsb has_ws_pair (q :: ps)).
    f_equal. rewrite <- (IH Hps).
    pose proof (join_starts_ws (lit " ") (q :: ps) Hps) as Hs.
    destruct (join (lit " ") (q :: ps)) as [|c r] eqn:E; [reflexivity|].
    simpl in Hs. change (lit " " ++ c :: r) with (32%N :: c :: r).
    change (has_ws_pair (32%N :: c :: r))
      with ((isspace 32%N && isspace c) || has_ws_pair (c :: r)).
    rewrite Hs. now rewrite andb_false_r.
Qed.

Lemma existsb_kept_parts (fragments : list str) :
  existsb has_ws_pair
    (map strip (filter (fun part => truthy (strip part)) fragments))
  = existsb (fun part => has_ws_pair (strip part)) fragments.
Proof.
  induction fragments as [|f fs IH]; simpl; [reflexivity|].
  destruct (truthy (strip f)) eqn:Hf; simpl.
  - now rewrite IH.
  - destruct (strip f); [|discriminate]. simpl. exact IH.
Qed.

Lemma normalize_single (x : str) : normalize [x] = strip x.
Proof.
  unfold normalize. simpl. destruct (strip x) eqn:E; simpl; [reflexivity|].
  now rewrite E.
Qed.

(** ** The text normalizer *)

(** C2, as stated, fails: a fragment with two spaces inside keeps them. *)
Lemma normalize_keeps_inner_whitespace :
  ~ normalize_clean [lit "a  b"].
Proof.
  unfold normalize_clean. intros [H _]. vm_compute in H. discriminate.
Qed.

(** C2, amended: the output of [normalize] has no whitespace at either
    end; it is made of the stripped fragments that are not blank, each as
    it is, with exactly one space between one and the next (a blank
    fragment is dropped, and a kept fragment is followed by one space and
    the rest of the output when that is not empty); so it has two
    adjacent whitespace characters exactly when some fragment, once
    stripped, has them. *)
Theorem normalize_whitespace (fragments : list str) :
  starts_ws (normalize fragments) = false
  /\ ends_ws (normalize fragments) = false
  /\ normalize fragments
     = match fragments with
       | [] => []
       | part :: rest =>
           if truthy (strip part)
           then if truthy (normalize rest)
                then strip part ++ lit " " ++ normalize rest
                else strip part
           else normalize rest
       end
  /\ has_ws_pair (normalize fragments)
     = existsb (fun part => has_ws_pair (strip part)) fragments.
Proof.
  pose proof (kept_parts_trimmed fragments) as H.
  split; [|split; [|split]].
  - now apply join_starts_ws.
  - now apply join_ends_ws.
  - destruct fragments as [|part rest]; [reflexivity|].
    unfold normalize. cbn [filter].
    destruct (truthy (strip part)); [|reflexivity]. cbn [map].
    pose proof (kept_parts_trimmed rest) as Hrest.
    destruct (map strip (filter (fun p => truthy (strip p)) rest))
      as [|q qs]; [reflexivity|].
    rewrite join_truthy; [reflexivity|].
    cbn [forallb] in Hrest. unfold trimmed in Hrest.
    apply andb_true_iff in Hrest as [Hq _].
    apply andb_true_iff in Hq as [Hq _].
    now apply andb_true_iff in Hq as [Hq _].
  - unfold normalize. rewrite (join_space_ws_pair _ H).
    apply existsb_kept_parts.
Qed.

(** C9: [normalize] is idempotent on single fragments. *)
Theorem normalize_idempotent (x : str) :
  normalize [normalize [x]] = normalize [x].
Proof. rewrite !normalize_single. apply strip_strip. Qed.

(** ** The structural list-item spider *)

Example ecitizen_example :
  ECitizen.parse
    [ECitizen.mkFaq (Some (lit "What is eCitizen?"))
                    [lit "Ecitizen "; lit "is "; lit "a platform."]]
  = [{| question := Some (lit "What is eCitizen?");
        answer := Some (lit "Ecitizen is a platform.");
        category := lit "eCitizen General";
        tags := [lit "eCitizen"];
        date_posted := Null;
        date_updated := Null;
        image := Unset |}].
Proof. vm_compute. reflexivity. Qed.

(** C3, as stated, fails: a question text of one space is stored as the
    empty string. *)
Lemma blank_question_is_empty_string :
  ~ question_null_never_empty (ECitizen.mkFaq (Some (lit " ")) []).
Proof.
  unfold question_null_never_empty. intros [_ H]. apply H. reflexivity.
Qed.

(** C3, amended: when the question selector yields nothing the question
    is [None], and the question is the empty string exactly when the
    selected text is not empty and is all whitespace. *)
Theorem question_null_or_stripped :
  (forall parts, question (ECitizen.parse_faq (ECitizen.mkFaq None parts)) = None)
  /\ (forall faq,
        question (ECitizen.parse_faq faq) = Some []
        <-> exists s, ECitizen.question_sel faq = Some s
                      /\ s <> [] /\ strip s = []).
Proof.
  split; [reflexivity|].
  intros [[s|] parts]; simpl.
  - destruct s as [|c s]; simpl.
    + split; [discriminate|]. intros (s' & E & Hne & _). now inversion E; subst.
    + split.
      * intros E. exists (c :: s). repeat split; [discriminate|].
        now inversion E.
      * intros (s' & E & _ & Hs). inversion E; subst. now rewrite Hs.
  - split; [discriminate|]. intros (s' & E & _). discriminate.
Qed.

(** ** Matching *)

Lemma first_some_in (A : Type) (f : nat -> option A) (ks : list nat) (a : A) :
  Sre.first_some f ks = Some a -> exists k, In k ks /\ f k = Some a.
Proof.
  induction ks as [|k ks IH]; simpl; [discriminate|].
  destruct (f k) as [a'|] eqn:E.
  - intros H. inversion H; subst. exists k. now split; [left|].
  - intros H. destruct (IH H) as (k' & Hin & Hk'). exists k'. now split; [right|].
Qed.

Lemma counts_min (min n : nat) (greedy : bool) (k : nat) :
  In k (Sre.counts min n greedy) -> min <= k.
Proof.
  unfold Sre.counts. intros H.
  assert (Hin : In k (seq min (S n - min))).
  { destruct greedy; [now apply in_rev in H | exact H]. }
  apply in_seq in Hin. lia.
Qed.

(** A match never ends before the position where it starts. *)
Lemma exec_forward (p : Sre.pattern) :
  forall i rest mk e mk',
    Sre.exec p i rest mk = Some (e, mk') -> i <= e.
Proof.
  induction p as [|o p IH]; intros i rest mk e mk'; simpl.
  - intros H. inversion H. lia.
  - destruct o as [c | cls min greedy | g | g | |].
    + destruct rest as [|x r]; [discriminate|].
      destruct (eqb_char x c); [|discriminate].
      intros H. apply IH in H. lia.
    + intros H. apply first_some_in in H as (k & _ & H).
      apply IH in H. lia.
    + apply IH.
    + apply IH.
    + destruct i; [apply IH | discriminate].
    + destruct (Sre.at_end rest); [apply IH | discriminate].
Qed.

(** A pattern that opens with a repetition of at least one character
    consumes at least one character. *)
Lemma exec_repeat_consumes (cls : char -> bool) (min : nat) (greedy : bool)
  (p : Sre.pattern) (i : nat) (rest : str) (mk mk' : Sre.marks) (e : nat) :
  Sre.exec (Sre.Repeat cls (S min) greedy :: p) i rest mk = Some (e, mk') ->
  i < e.
Proof.
  simpl. intros H. apply first_some_in in H as (k & Hin & H).
  apply counts_min in Hin. apply exec_forward in H. lia.
Qed.

(** The three patterns given to [re.sub] never match the empty string. *)
Lemma sub_patterns_consume (p : Sre.pattern) (i : nat) (rest : str)
  (mk mk' : Sre.marks) (e : nat) :
  In p [Slides.numbering; Slides.trailing_punctuation; Slides.whitespace_run] ->
  Sre.exec p i rest mk = Some (e, mk') -> i < e.
Proof.
  intros [<- | [<- | [<- | []]]].
  - unfold Slides.numbering.
    change (Sre.exec (Sre.AtBeginning :: ?q) i rest mk)
      with (match i with O => Sre.exec q i rest mk | S _ => None end).
    destruct i; [|discriminate]. apply exec_repeat_consumes.
  - apply exec_repeat_consumes.
  - apply exec_repeat_consumes.
Qed.

(** ** Sorting the text entries *)

Lemma insert_perm (x : Slides.TextEntry) (l : list Slides.TextEntry) :
  Permutation (Slides.insert x l) (x :: l).
Proof.
  induction l as [|y l IH]; simpl; [reflexivity|].
  destruct (Qle_bool _ _); [reflexivity|].
  rewrite IH. apply perm_swap.
Qed.

Lemma sort_perm (l : list Slides.TextEntry) : Permutation (Slides.sort l) l.
Proof.
  induction l as [|x l IH]; simpl; [reflexivity|].
  rewrite insert_perm. now constructor.
Qed.

Lemma insert_hd (x : Slides.TextEntry) (l : list Slides.TextEntry)
  (z : Slides.TextEntry) :
  above z x -> HdRel above z l -> HdRel above z (Slides.insert x l).
Proof.
  intros Hzx Hl. destruct l as [|y l]; simpl; [now constructor|].
  destruct (Qle_bool _ _); constructor; [exact Hzx|].
  now inversion Hl.
Qed.

Lemma insert_sorted (x : Slides.TextEntry) (l : list Slides.TextEntry) :
  Sorted above l -> Sorted above (Slides.insert x l).
Proof.
  induction l as [|y l IH]; simpl; intros Hs.
  - repeat constructor.
  - destruct (Qle_bool (Slides.te_translateY x) (Slides.te_translateY y)) eqn:E.
    + constructor; [exact Hs|]. constructor. now apply Qle_bool_iff.
    + inversion Hs as [|? ? Hs' Hhd]; subst.
      constructor; [now apply IH|].
      apply insert_hd; [|exact Hhd].
      unfold above. apply Qlt_le_weak, Qnot_le_lt.
      intros H. apply Qle_bool_iff in H. congruence.
Qed.

(** The entries come out top to bottom, and they are the entries that went
    in. *)
Lemma sort_sorted (l : list Slides.TextEntry) : Sorted above (Slides.sort l).
Proof.
  induction l as [|x l IH]; simpl; [constructor | now apply insert_sorted].
Qed.

(** ** Substitution *)

Lemma sub_truthy (p : Sre.pattern) (repl s : str) :
  truthy repl = true -> truthy s = true -> truthy (Sre.sub p repl s) = true.
Proof.
  intros Hr Hs. destruct s as [|c r]; [discriminate|].
  destruct repl as [|x repl]; [discriminate|].
  unfold Sre.sub. simpl.
  destruct (Sre.exec p 0 (c :: r) Sre.no_marks) as [[e mk]|]; [|reflexivity].
  destruct (e - 0); reflexivity.
Qed.

(** ** The slide spider *)

Section SlideProperties.

Variable islower : char -> bool.
Variable upper : char -> str.

Lemma clean_title_truthy (title : option str) :
  truthy (Slides.clean_title islower upper title) = true.
Proof.
  unfold Slides.clean_title. destruct title as [t|]; [|reflexivity].
  destruct (negb (truthy t)); [reflexivity|].
  match goal with
  | |- context [if truthy ?x then _ else _] => destruct (truthy x) eqn:E
  end; [exact E | reflexivity].
Qed.

Lemma build_description_truthy (text_elements : list Slides.TextEntry)
  (title : str) :
  truthy (Slides.build_description text_elements title) = true.
Proof.
  unfold Slides.build_description.
  destruct (filter _ _) as [|p ps] eqn:E; [reflexivity|].
  apply sub_truthy; [reflexivity|].
  destruct (endswith _ _) eqn:He.
  - destruct (join (lit ". ") (p :: ps)); [discriminate He | reflexivity].
  - destruct (join (lit ". ") (p :: ps)); reflexivity.
Qed.

Lemma process_slide_one (slide : Slides.Slide) :
  exists item, Slides.process_slide islower upper slide = [item]
               /\ truthy_opt (question item) = true
               /\ truthy_opt (answer item) = true.
Proof.
  unfold Slides.process_slide.
  rewrite clean_title_truthy. simpl orb. cbv iota.
  eexists. split; [reflexivity|]. simpl.
  now rewrite clean_title_truthy, build_description_truthy.
Qed.

End SlideProperties.

(** When cleaning leaves the picked question as it is, the answer is the one
    that excludes the picked question. *)
Lemma answer_when_title_unchanged (islower : char -> bool) (upper : char -> str)
  (slide : Slides.Slide) :
  let text_elements := Slides.sort (Slides.collect slide) in
  Slides.clean_title islower upper (Slides.pick_title text_elements)
  = Slides.get (Slides.pick_title text_elements) (lit "Untitled") ->
  map answer (Slides.process_slide islower upper slide)
  = [Some (answer_excluding_picked_title slide)].
Proof.
  intros tes H. destruct (process_slide_one islower upper slide) as (item & E & _).
  unfold Slides.process_slide in *. fold tes in E |- *.
  rewrite clean_title_truthy in *. simpl orb in *. cbv iota in *.
  simpl. unfold answer_excluding_picked_title. fold tes. now rewrite H.
Qed.

(** C1 on [benefits_slide]: the picked question is the heading
    [1. benefits:], the answer as C1 words it is the sentence alone, and
    the spider's answer starts with the heading, because the heading is
    compared with the cleaned question [Benefits]. *)
Theorem numbered_heading_stays_in_answer :
  Slides.pick_title (Slides.sort (Slides.collect benefits_slide))
  = Some (lit "1. benefits:")
  /\ answer_excluding_picked_title benefits_slide
     = lit "You must be a citizen."
  /\ map (fun item => (question item, answer item))
         (Slides.process_slide Slides.ascii_islower Slides.ascii_upper
                               benefits_slide)
     = [(Some (lit "Benefits"),
         Some (lit "1. benefits:. You must be a citizen."))].
Proof. repeat split; vm_compute; reflexivity. Qed.

(** C4: the item is yielded under the test [title or description or
    image_url]; the cleaned title and the description are never empty, so
    the test never fails and every slide yields exactly one item, whose
    question and answer are non-empty. *)
Theorem every_slide_yields_one_item (islower : char -> bool)
  (upper : char -> str) (slide : Slides.Slide) :
  forallb (fun item => truthy_opt (question item) || truthy_opt (answer item)
                       || truthy_slot (image item))
          (Slides.process_slide islower upper slide) = true
  /\ (forall title, truthy (Slides.clean_title islower upper title) = true)
  /\ (forall text_elements title,
        truthy (Slides.build_description text_elements title) = true)
  /\ exists item, Slides.process_slide islower upper slide = [item].
Proof.
  destruct (process_slide_one islower upper slide) as (item & E & Hq & Ha).
  repeat split.
  - rewrite E. simpl. now rewrite Hq.
  - apply clean_title_truthy.
  - apply build_description_truthy.
  - now exists item.
Qed.

(** C8: when the setting is absent, the credentials cannot be loaded or
    the presentation cannot be fetched, [start] yields no item, and it has
    made each outside call at most once. *)
Theorem start_failure_yields_nothing (islower : char -> bool)
  (upper : char -> str) (C S : Type) (w : Slides.World C S) :
  setting_absent w \/ credentials_fail w \/ fetch_fails w ->
  Slides.yielded (Slides.start islower upper w) = []
  /\ loads (Slides.events (Slides.start islower upper w)) <= 1
  /\ gets (Slides.events (Slides.start islower upper w)) <= 1.
Proof.
  unfold setting_absent, credentials_fail, fetch_fails, Slides.start.
  intros [H | [(file & e & Hf & Ht & Hl)
              | (file & creds & service & e & Hf & Ht & Hl & Hb & Hx)]].
  - destruct (Slides.service_account_file w) as [file|]; simpl in H.
    + rewrite H. cbn. repeat split; lia.
    + cbn. repeat split; lia.
  - rewrite Hf, Ht, Hl. cbn. repeat split; lia.
  - rewrite Hf, Ht, Hl, Hb, Hx. cbn. repeat split; lia.
Qed.

Lemma start_failure_yields_nothing_witness :
  fetch_fails unreachable
  /\ Slides.yielded
       (Slides.start Slides.ascii_islower Slides.ascii_upper unreachable) = []
  /\ gets (Slides.events
             (Slides.start Slides.ascii_islower Slides.ascii_upper unreachable))
     <= 1.
Proof.
  assert (H : fetch_fails unreachable).
  { exists (lit "service-account.json"), tt, tt, (lit "HttpError 503").
    repeat split. }
  split; [exact H|].
  destruct (start_failure_yields_nothing Slides.ascii_islower Slides.ascii_upper
              (w := unreachable) (or_intror (or_intror H))) as (Hy & _ & Hg).
  split; [exact Hy | exact Hg].
Defined.

(** Without the setting nothing is called at all. *)
Example unconfigured_run :
  Slides.start Slides.ascii_islower Slides.ascii_upper unconfigured
  = Slides.setting_missing.
Proof. reflexivity. Qed.

(** Every run of [start] makes each outside call at most once. *)
Lemma start_calls_once (islower : char -> bool) (upper : char -> str)
  (C S : Type) (w : Slides.World C S) :
  loads (Slides.events (Slides.start islower upper w)) <= 1
  /\ gets (Slides.events (Slides.start islower upper w)) <= 1.
Proof.
  unfold Slides.start.
  destruct (Slides.service_account_file w) as [file|]; [|cbn; lia].
  destruct (truthy file); [|cbn; lia]. simpl negb. cbv iota.
  destruct (Slides.from_service_account_file w file) as [e|creds]; [cbn; lia|].
  destruct (Slides.build w creds) as [e|service]; [cbn; lia|].
  destruct (Slides.execute_get w service Slides.presentation_id); cbn; lia.
Qed.

(** The examples of the slide adapter. *)
Example eligibility_example :
  map (fun item => (question item, answer item))
      (Slides.process_slide Slides.ascii_islower Slides.ascii_upper
                            eligibility_slide)
  = [(Some (lit "Eligibility"),
      Some (lit "You must be a citizen and over 18."))].
Proof. vm_compute. reflexivity. Qed.

Example clean_title_example :
  Slides.clean_title Slides.ascii_islower Slides.ascii_upper
                     (Some (lit "1. benefits:"))
  = lit "Benefits".
Proof. vm_compute. reflexivity. Qed.

(** [$] also matches before a newline that ends the string. *)
Example trailing_punctuation_before_newline :
  Sre.sub Slides.trailing_punctuation [] (lit "abc:-" ++ [10%N])
  = lit "abc" ++ [10%N].
Proof. vm_compute. reflexivity. Qed.

(** ** The accessibility-label spider *)

(** C5: the two examples of the regex adapter. *)
Theorem aria_label_examples :
  (forall span_text,
     Health.parse_faq
       (Health.mkFaq
          (Some (lit "Question: How do I register?, Answer: Visit the portal."))
          span_text)
     = [{| question := Some (lit "How do I register?");
           answer := Some (lit "Visit the portal.");
           category := lit "Social Health Authority";
           tags := [lit "SHA"; lit "health"; lit "Kenya"];
           date_posted := Null;
           date_updated := Null;
           image := Unset |}])
  /\ Health.parse_faq (Health.mkFaq None (Some (lit "How do I register?")))
     = [{| question := Some (lit "How do I register?");
           answer := Some (lit "Could not find aria-label.");
           category := lit "Social Health Authority";
           tags := [lit "SHA"; lit "health"; lit "Kenya"];
           date_posted := Null;
           date_updated := Null;
           image := Unset |}].
Proof. split; [intros span_text|]; vm_compute; reflexivity. Qed.

(** ** The paginated-category spider *)

Section Traversal.

Variable urljoin : str -> str -> str.
Variable fetch : str -> Kra.Response.

Lemma items_of_app (a b : list Kra.output) :
  Kra.items_of (a ++ b) = Kra.items_of a ++ Kra.items_of b.
Proof. apply flat_map_app. Qed.

Lemma requests_of_app (a b : list Kra.output) :
  Kra.requests_of (a ++ b) = Kra.requests_of a ++ Kra.requests_of b.
Proof. apply flat_map_app. Qed.

Lemma items_of_items (l : list GovChatbotFAQItem) :
  Kra.items_of (map Kra.Item l) = l.
Proof. induction l as [|i l IH]; simpl; [reflexivity | now f_equal]. Qed.

Lemma requests_of_items (l : list GovChatbotFAQItem) :
  Kra.requests_of (map Kra.Item l) = [].
Proof. induction l as [|i l IH]; simpl; [reflexivity | exact IH]. Qed.

Lemma items_of_parse_category (response : Kra.Response) :
  Kra.items_of (Kra.parse_category urljoin response) = page_items response.
Proof.
  unfold Kra.parse_category, page_items.
  rewrite items_of_app, <- map_map, items_of_items.
  destruct (Kra.next_sel response) as [l|]; [destruct (truthy l)|];
    simpl; apply app_nil_r.
Qed.

Lemma requests_of_parse_category (u : str) :
  Kra.requests_of (Kra.parse_category urljoin (fetch u))
  = match Kra.next_url urljoin fetch u with
    | Some u' => [(u', Kra.ParseCategoryCb)]
    | None => []
    end.
Proof.
  unfold Kra.parse_category, Kra.next_url.
  rewrite requests_of_app, <- map_map, requests_of_items.
  destruct (Kra.next_sel (fetch u)) as [l|]; [destruct (truthy l)|];
    reflexivity.
Qed.

Lemma step_category (u : str) (rest : list (str * Kra.callback))
  (st : Kra.crawl) :
  Kra.step urljoin fetch (u, Kra.ParseCategoryCb) rest st
  = {| Kra.pending :=
         match Kra.next_url urljoin fetch u with
         | Some u' => [(u', Kra.ParseCategoryCb)]
         | None => []
         end ++ rest;
       Kra.fetched := Kra.fetched st ++ [u];
       Kra.emitted := Kra.emitted st ++ page_items (fetch u) |}.
Proof.
  unfold Kra.step. simpl.
  now rewrite requests_of_parse_category, items_of_parse_category.
Qed.

Lemma run_done (fuel : nat) (st : Kra.crawl) :
  Kra.pending st = [] -> Kra.run urljoin fetch fuel st = Some st.
Proof. intros H. destruct fuel; simpl; now rewrite H. Qed.

Lemma run_next (fuel : nat) (st : Kra.crawl) (req : str * Kra.callback)
  (rest : list (str * Kra.callback)) :
  Kra.pending st = req :: rest ->
  Kra.run urljoin fetch (S fuel) st
  = Kra.run urljoin fetch fuel (Kra.step urljoin fetch req rest st).
Proof. intros H. simpl. now rewrite H. Qed.

Lemma run_out (st : Kra.crawl) (req : str * Kra.callback)
  (rest : list (str * Kra.callback)) :
  Kra.pending st = req :: rest -> Kra.run urljoin fetch 0 st = None.
Proof. intros H. simpl. now rewrite H. Qed.

(** A chain of [n] links is traversed in [n + 1] fetches, page after
    page. *)
Lemma run_chain (n : nat) :
  forall u st,
    Kra.pending st = [(u, Kra.ParseCategoryCb)] ->
    Kra.ends_after urljoin fetch n u ->
    Kra.run urljoin fetch (S n) st
    = Some {| Kra.pending := [];
              Kra.fetched := Kra.fetched st ++ Kra.chain urljoin fetch n u;
              Kra.emitted :=
                Kra.emitted st
                ++ flat_map (fun v => page_items (fetch v))
                            (Kra.chain urljoin fetch n u) |}.
Proof.
  induction n as [|n IH]; intros u st Hp He.
  - cbn [Kra.ends_after] in He.
    rewrite (run_next 0 st Hp), step_category, He.
    rewrite run_done by reflexivity.
    cbn [Kra.chain flat_map app]. now rewrite app_nil_r.
  - destruct He as (u' & Hn & He).
    rewrite (run_next (S n) st Hp), step_category, Hn.
    erewrite (IH u'); [| reflexivity | exact He].
    cbn [Kra.fetched Kra.emitted].
    cbn [Kra.chain]. rewrite Hn. cbn [flat_map].
    now rewrite <- !app_assoc.
Qed.

(** It is not over before that. *)
Lemma run_short (n : nat) :
  forall fuel u st,
    Kra.pending st = [(u, Kra.ParseCategoryCb)] ->
    Kra.ends_after urljoin fetch n u ->
    fuel <= n ->
    Kra.run urljoin fetch fuel st = None.
Proof.
  induction n as [|n IH]; intros fuel u st Hp He Hle.
  - assert (fuel = 0) by lia. subst. exact (run_out st Hp).
  - destruct fuel as [|fuel]; [exact (run_out st Hp)|].
    destruct He as (u' & Hn & He).
    rewrite (run_next fuel st Hp), step_category, Hn.
    apply (IH fuel u'); [reflexivity | exact He | lia].
Qed.

End Traversal.

(** On the looping site every page has a Next link. *)
Lemma loop_never_ends (fuel : nat) :
  forall u st,
    Kra.pending st = [(u, Kra.ParseCategoryCb)] ->
    Kra.run Kra.absolute Kra.loop_site fuel st = None.
Proof.
  induction fuel as [|fuel IH]; intros u st Hp;
    [exact (run_out _ _ st Hp)|].
  rewrite (run_next _ _ fuel st Hp), step_category.
  destruct (Kra.next_url Kra.absolute Kra.loop_site u) as [u'|] eqn:E.
  - now apply (IH u').
  - unfold Kra.next_url, Kra.loop_site in E. simpl in E.
    destruct (PyStr.eqb u (lit "/faqs?page=1")); discriminate.
Qed.

(** C6, as stated, fails: when the second page marks no menu link as
    active, its record has the category [General] while the records of
    the first page have the name of the first page. *)
Lemma unmarked_second_page_gets_general :
  two_page_category Kra.absolute unmarked_site (lit "/faqs/vat")
  /\ ~ three_records_one_category Kra.absolute unmarked_site (lit "/faqs/vat").
Proof.
  split.
  - exists (Kra.mkGridItem (Some (lit "What is VAT?"))
                           [lit "A tax "; lit "on sales."]),
           (Kra.mkGridItem (Some (lit "Who pays VAT?"))
                           [lit "Registered traders."]),
           (Kra.mkGridItem (Some (lit "When is VAT due?")) [lit "Monthly."]),
           (lit "/faqs/vat?page=2").
    repeat split.
  - intros (fuel & st & name & Hrun & _ & Hall).
    destruct fuel as [|[|fuel]]; [discriminate Hrun | discriminate Hrun |].
    erewrite run_next in Hrun by reflexivity.
    erewrite run_next in Hrun by reflexivity.
    rewrite run_done in Hrun by reflexivity.
    injection Hrun as <-. vm_compute in Hall.
    inversion Hall as [|? ? H1 Hall1]; subst.
    inversion Hall1 as [|? ? _ Hall2]; subst.
    inversion Hall2 as [|? ? H3 _]; subst.
    discriminate H3.
Qed.

(** C6, amended: a first page with two grid items and a Next link,
    followed by a page with one grid item and no Next link: the traversal
    ends after two fetches and has emitted exactly three items, the two of
    the first page and then the one of the second, each with the category
    read on its own page; when the second page shows the same active
    category as the first, all three have the same category and tags. *)
Theorem two_pages_three_records (urljoin : str -> str -> str)
  (fetch : str -> Kra.Response) (first link : str)
  (a b c : Kra.GridItem) :
  Kra.grid_items (fetch first) = [a; b] ->
  Kra.next_sel (fetch first) = Some link ->
  truthy link = true ->
  let second := urljoin (Kra.url (fetch first)) link in
  Kra.grid_items (fetch second) = [c] ->
  truthy_opt (Kra.next_sel (fetch second)) = false ->
  exists st,
    Kra.run urljoin fetch 2 (Kra.start_category first) = Some st
    /\ Kra.fetched st = [first; second]
    /\ Kra.emitted st
       = [Kra.parse_item (Kra.active_sel (fetch first)) a;
          Kra.parse_item (Kra.active_sel (fetch first)) b;
          Kra.parse_item (Kra.active_sel (fetch second)) c]
    /\ map category (Kra.emitted st)
       = [Kra.category_of (Kra.active_sel (fetch first));
          Kra.category_of (Kra.active_sel (fetch first));
          Kra.category_of (Kra.active_sel (fetch second))]
    /\ (Kra.active_sel (fetch second) = Kra.active_sel (fetch first) ->
        Forall (fun item =>
                  category item
                  = Kra.category_of (Kra.active_sel (fetch first))
                  /\ tags item = Kra.tags_of (Kra.active_sel (fetch first)))
               (Kra.emitted st)).
Proof.
  intros Hg1 Hn1 Hl second Hg2 Hn2.
  assert (N1 : Kra.next_url urljoin fetch first = Some second).
  { unfold Kra.next_url. now rewrite Hn1, Hl. }
  assert (N2 : Kra.next_url urljoin fetch second = None).
  { unfold Kra.next_url. destruct (Kra.next_sel (fetch second)) as [l|];
      [|reflexivity]. simpl in Hn2. now rewrite Hn2. }
  eexists. split.
  - apply (run_chain urljoin fetch 1 (u := first)); [reflexivity|].
    exists second. split; [exact N1 | exact N2].
  - cbn [Kra.fetched Kra.emitted Kra.start_category Kra.chain].
    rewrite N1. cbn [flat_map app]. unfold page_items.
    rewrite Hg1, Hg2. cbn [map app].
    repeat split.
    intros Hsame. rewrite Hsame. repeat constructor.
Qed.

Lemma two_pages_three_records_witness :
  exists st,
    Kra.run Kra.absolute vat_site 2 (Kra.start_category (lit "/faqs/vat"))
    = Some st
    /\ List.length (Kra.emitted st) = 3
    /\ map category (Kra.emitted st) = [lit "VAT"; lit "VAT"; lit "VAT"].
Proof.
  destruct (@two_pages_three_records Kra.absolute vat_site (lit "/faqs/vat")
              (lit "/faqs/vat?page=2")
              (Kra.mkGridItem (Some (lit "What is VAT?"))
                              [lit "A tax "; lit "on sales."])
              (Kra.mkGridItem (Some (lit "Who pays VAT?"))
                              [lit "Registered traders."])
              (Kra.mkGridItem (Some (lit "When is VAT due?")) [lit "Monthly."])
              eq_refl eq_refl eq_refl eq_refl eq_refl)
    as (st & Hrun & _ & Hem & _).
  exists st. split; [exact Hrun|]. rewrite Hem. split; reflexivity.
Defined.

(** C7: when the chain of Next links from the first page of a category
    ends after [n] links, the traversal ends, after exactly [n + 1] fetches
    and not before, having fetched the pages of the chain up to the one
    without a Next link; and on a site whose two pages link to each other
    the traversal never ends. *)
Theorem traversal_ends_with_the_chain :
  (forall (urljoin : str -> str -> str) (fetch : str -> Kra.Response)
          (first : str) (n : nat),
     Kra.ends_after urljoin fetch n first ->
     (exists st,
        Kra.run urljoin fetch (S n) (Kra.start_category first) = Some st
        /\ Kra.fetched st = Kra.chain urljoin fetch n first)
     /\ (forall fuel, fuel <= n ->
           Kra.run urljoin fetch fuel (Kra.start_category first) = None))
  /\ (Kra.next_url Kra.absolute Kra.loop_site (lit "/faqs?page=1")
      = Some (lit "/faqs?page=2")
      /\ Kra.next_url Kra.absolute Kra.loop_site (lit "/faqs?page=2")
         = Some (lit "/faqs?page=1")
      /\ forall fuel,
           Kra.run Kra.absolute Kra.loop_site fuel
                   (Kra.start_category (lit "/faqs?page=1")) = None).
Proof.
  split.
  - intros urljoin fetch first n He. split.
    + eexists. split.
      * apply (run_chain urljoin fetch n (u := first)); [reflexivity | exact He].
      * reflexivity.
    + intros fuel Hle.
      apply (run_short urljoin fetch (n := n) (u := first));
        [reflexivity | exact He | exact Hle].
  - repeat split.
    intros fuel. now apply (loop_never_ends fuel (u := lit "/faqs?page=1")).
Qed.

Lemma traversal_ends_with_the_chain_witness :
  Kra.ends_after Kra.absolute vat_site 1 (lit "/faqs/vat")
  /\ exists st,
       Kra.run Kra.absolute vat_site 2 (Kra.start_category (lit "/faqs/vat"))
       = Some st
       /\ Kra.fetched st = [lit "/faqs/vat"; lit "/faqs/vat?page=2"].
Proof.
  assert (He : Kra.ends_after Kra.absolute vat_site 1 (lit "/faqs/vat")).
  { exists (lit "/faqs/vat?page=2"). split; reflexivity. }
  split; [exact He|].
  destruct (proj1 traversal_ends_with_the_chain Kra.absolute vat_site
              (lit "/faqs/vat") 1 He) as [(st & Hrun & Hf) _].
  exists st. split; [exact Hrun | exact Hf].
Defined.

(** C10: on every item of a category page the tags are empty and the
    category is [General] when no active category name was found, and
    otherwise the tags are the one-element list of the category, which is
    the stripped name. *)
Theorem tags_follow_category (urljoin : str -> str -> str)
  (response : Kra.Response) :
  Forall (fun item =>
            (truthy_opt (Kra.active_sel response) = false
             /\ tags item = [] /\ category item = lit "General")
            \/ (truthy_opt (Kra.active_sel response) = true
                /\ tags item = [category item]
                /\ exists name, Kra.active_sel response = Some name
                                /\ category item = strip name))
         (Kra.items_of (Kra.parse_category urljoin response)).
Proof.
  rewrite items_of_parse_category. unfold page_items.
  apply Forall_forall. intros item Hin. apply in_map_iff in Hin as (faq & <- & _).
  cbn [Kra.parse_item category tags].
  destruct (Kra.active_sel response) as [name|]; simpl.
  - destruct (truthy name) eqn:Hn.
    + right. repeat split. now exists name.
    + left. now repeat split.
  - left. now repeat split.
Qed.

(** * Further properties *)

(** ** More on strings *)

Lemma lstrip_decomp (s : str) :
  exists w, s = w ++ lstrip s /\ forallb isspace w = true.
Proof.
  induction s as [|c s (w & Hw & Hall)]; simpl.
  - now exists [].
  - destruct (isspace c) eqn:Hc.
    + exists (c :: w). simpl. rewrite Hc, Hall. split; [now f_equal | reflexivity].
    + now exists [].
Qed.

Lemma forallb_rev (f : char -> bool) (l : str) :
  forallb f (rev l) = forallb f l.
Proof.
  induction l as [|c l IH]; simpl; [reflexivity|].
  rewrite forallb_app, IH. simpl. rewrite andb_true_r. apply andb_comm.
Qed.

Lemma rstrip_decomp (s : str) :
  exists w, s = rstrip s ++ w /\ forallb isspace w = true.
Proof.
  unfold rstrip. destruct (lstrip_decomp (rev s)) as (w & Hw & Hall).
  exists (rev w). split.
  - rewrite <- rev_app_distr, <- Hw. now rewrite rev_involutive.
  - now rewrite forallb_rev.
Qed.

Lemma split_aux_blank (w : str) :
  forallb isspace w = true ->
  forall cur, split_aux cur w = split_aux cur [].
Proof.
  induction w as [|c w IH]; simpl; [reflexivity|].
  intros H cur. apply andb_true_iff in H as [Hc Hw]. rewrite Hc.
  destruct cur; rewrite (IH Hw); reflexivity.
Qed.

Lemma split_aux_app_blank (w : str) :
  forallb isspace w = true ->
  forall a cur, split_aux cur (a ++ w) = split_aux cur a.
Proof.
  intros Hw a. induction a as [|c a IH]; intros cur.
  - now apply split_aux_blank.
  - simpl. destruct (isspace c); [destruct cur|]; now rewrite IH.
Qed.

Lemma split_aux_app_space (c : char) (b : str) :
  isspace c = true ->
  forall a cur, split_aux cur (a ++ c :: b) = split_aux cur a ++ split b.
Proof.
  intros Hc a. induction a as [|x a IH]; intros cur.
  - simpl. rewrite Hc. now destruct cur.
  - simpl. destruct (isspace x); [destruct cur|]; now rewrite IH.
Qed.

Lemma split_lstrip (s : str) : split (lstrip s) = split s.
Proof.
  induction s as [|c s IH]; simpl; [reflexivity|].
  unfold split in *. simpl. destruct (isspace c) eqn:Hc; [exact IH|].
  simpl. now rewrite Hc.
Qed.

Lemma split_rstrip (s : str) : split (rstrip s) = split s.
Proof.
  destruct (rstrip_decomp s) as (w & Hw & Hall).
  rewrite Hw at 2. unfold split. now rewrite split_aux_app_blank.
Qed.

Lemma split_strip (s : str) : split (strip s) = split s.
Proof. unfold strip. now rewrite split_rstrip, split_lstrip. Qed.

Lemma split_join_space (parts : list str) :
  split (join (lit " ") parts) = flat_map split parts.
Proof.
  induction parts as [|p ps IH]; [reflexivity|].
  destruct ps as [|q ps].
  - simpl. now rewrite app_nil_r.
  - change (join (lit " ") (p :: q :: ps))
      with (p ++ 32%N :: join (lit " ") (q :: ps)).
    unfold split at 1. rewrite split_aux_app_space by reflexivity.
    rewrite IH. reflexivity.
Qed.

Lemma normalize_truthy (fragments : list str) :
  truthy (normalize fragments) = negb (forallb blank fragments).
Proof.
  unfold normalize, blank.
  induction fragments as [|f fs IH]; [reflexivity|].
  cbn [filter forallb]. destruct (truthy (strip f)) eqn:Hf; cbn [negb andb map].
  - now apply join_truthy.
  - exact IH.
Qed.

Lemma normalize_trimmed (fragments : list str) :
  truthy (normalize fragments) = true -> trimmed (normalize fragments) = true.
Proof.
  intros H. unfold trimmed. rewrite H. unfold normalize.
  rewrite join_starts_ws, join_ends_ws by apply kept_parts_trimmed.
  reflexivity.
Qed.

Lemma trimmed_fixed (s : str) : trimmed s = true -> strip s = s.
Proof.
  unfold trimmed. intros H.
  apply andb_true_iff in H as [H He]. apply andb_true_iff in H as [_ Hs].
  apply negb_true_iff in He, Hs. now apply strip_fixed.
Qed.

(** ** More on the text normalizer *)

(** X1: normalizing the output of [normalize] as a single fragment gives
    the output back, for every list of fragments. *)
Theorem normalize_fixed_point (fragments : list str) :
  normalize [normalize fragments] = normalize fragments.
Proof.
  rewrite normalize_single. apply strip_fixed; unfold normalize.
  - apply join_starts_ws, kept_parts_trimmed.
  - apply join_ends_ws, kept_parts_trimmed.
Qed.

(** X2: the words of the output are the words of the fragments, in
    order: nothing is lost, merged or split. *)
Theorem normalize_keeps_words (fragments : list str) :
  split (normalize fragments) = flat_map split fragments.
Proof.
  unfold normalize. rewrite split_join_space.
  induction fragments as [|f fs IH]; simpl; [reflexivity|].
  destruct (truthy (strip f)) eqn:Hf; simpl.
  - now rewrite split_strip, IH.
  - rewrite <- (split_strip f). destruct (strip f); [|discriminate].
    simpl. exact IH.
Qed.

(** ** More on the structural list-item spider *)

(** X3: the answer is [None] exactly when every answer fragment is
    blank; otherwise it is the normalized text, which the final strip
    leaves as it is, and it is not empty and has no whitespace at either
    end. *)
Theorem ecitizen_answer (faq : ECitizen.Faq) :
  answer (ECitizen.parse_faq faq)
  = (if forallb blank (ECitizen.answer_parts faq)
     then None
     else Some (normalize (ECitizen.answer_parts faq)))
  /\ forallb trimmed
       (match answer (ECitizen.parse_faq faq) with
        | Some a => [a]
        | None => []
        end) = true.
Proof.
  unfold ECitizen.parse_faq. cbn [answer].
  pose proof (normalize_truthy (ECitizen.answer_parts faq)) as Ht.
  pose proof (normalize_trimmed (ECitizen.answer_parts faq)) as Htr.
  destruct (forallb blank (ECitizen.answer_parts faq)); simpl in Ht;
    rewrite Ht.
  - split; reflexivity.
  - rewrite (trimmed_fixed _ (Htr Ht)). split; [reflexivity|].
    simpl. now rewrite (Htr Ht).
Qed.

(** ** More on the paginated-category spider *)

(** X4: the category of an item is the empty string exactly when the
    active link has a text that is not empty and is all whitespace (the
    default [General] is not used then), and in that case the one tag is
    the empty string too. *)
Theorem kra_blank_category (category_name : option str) (faq : Kra.GridItem) :
  (category (Kra.parse_item category_name faq) = []
   <-> exists name, category_name = Some name /\ name <> [] /\ strip name = [])
  /\ (category (Kra.parse_item category_name faq) = [] ->
      tags (Kra.parse_item category_name faq) = [[]]).
Proof.
  cbn [Kra.parse_item category tags].
  destruct category_name as [name|]; simpl.
  - destruct name as [|c name]; simpl.
    + split; [split|]; try discriminate.
      intros (n & E & Hne & _). now inversion E; subst.
    + split; [split|].
      * intros E. exists (c :: name). now repeat split.
      * intros (n & E & _ & Hs). inversion E; subst. exact Hs.
      * now intros ->.
  - split; [split|]; try discriminate. intros (n & E & _). discriminate.
Qed.

Lemma kra_blank_category_witness :
  category (Kra.parse_item (Some (lit "  ")) (Kra.mkGridItem None [])) = []
  /\ tags (Kra.parse_item (Some (lit "  ")) (Kra.mkGridItem None [])) = [[]].
Proof.
  split; [reflexivity|].
  apply (proj2 (kra_blank_category (Some (lit "  ")) (Kra.mkGridItem None []))).
  reflexivity.
Defined.

(** X5: the answer of a grid item is always a string, never [None]; it
    is the empty string exactly when every fragment of the accordion is
    blank, and otherwise has no whitespace at either end. *)
Theorem kra_answer (category_name : option str) (faq : Kra.GridItem) :
  exists a,
    answer (Kra.parse_item category_name faq) = Some a
    /\ truthy a = negb (forallb blank (Kra.accordion_parts faq))
    /\ starts_ws a = false /\ ends_ws a = false.
Proof.
  exists (normalize (Kra.accordion_parts faq)). split; [reflexivity|].
  split; [apply normalize_truthy|]. unfold normalize.
  split; [apply join_starts_ws | apply join_ends_ws]; apply kept_parts_trimmed.
Qed.

(** ** More on the accessibility-label spider *)

Lemma truthy_strip_trimmed (s : str) :
  truthy (strip s) = true -> trimmed (strip (strip s)) = true.
Proof. intros H. rewrite strip_strip. now apply trimmed_strip. Qed.

(** X6: a container gives at most one item, and an item always has a
    question and an answer that are strings; the answer is not empty and
    has no whitespace at either end. *)
Theorem health_items (faq : Health.Faq) :
  List.length (Health.parse_faq faq) <= 1
  /\ forallb (fun item =>
                match question item, answer item with
                | Some _, Some a => trimmed a
                | _, _ => false
                end)
             (Health.parse_faq faq) = true.
Proof.
  unfold Health.parse_faq, Health.extract.
  destruct (Health.aria_label_sel faq) as [label|].
  - destruct (truthy label).
    + destruct (Sre.search Health.qa_pattern label) as [m|].
      * destruct (truthy (strip (Sre.group label m 1))); simpl; [|split; [lia|reflexivity]].
        destruct (truthy (strip (Sre.group label m 2))) eqn:Ha; simpl;
          [|split; [lia|reflexivity]].
        rewrite (truthy_strip_trimmed _ Ha). split; [lia|reflexivity].
      * destruct (Health.span_text_sel faq) as [q|]; [|split; simpl; [lia|reflexivity]].
        destruct (truthy q); simpl; split; try lia; reflexivity.
    + destruct (Health.span_text_sel faq) as [q|]; [|split; simpl; [lia|reflexivity]].
      destruct (truthy q); simpl; split; try lia; reflexivity.
  - destruct (Health.span_text_sel faq) as [q|]; [|split; simpl; [lia|reflexivity]].
    destruct (truthy q); simpl; split; try lia; reflexivity.
Qed.

(** ** More on matching *)

Lemma counts_greedy (min n : nat) :
  min <= n -> Sre.counts min n true = n :: rev (seq min (n - min)).
Proof.
  intros H. unfold Sre.counts.
  replace (S n - min) with (S (n - min)) by lia.
  rewrite seq_S, rev_app_distr. simpl. f_equal. lia.
Qed.

Lemma counts_none (min n : nat) (greedy : bool) :
  n < min -> Sre.counts min n greedy = [].
Proof.
  intros H. unfold Sre.counts.
  replace (S n - min) with 0 by lia. now destruct greedy.
Qed.

Lemma counts_max (min n : nat) (greedy : bool) (k : nat) :
  In k (Sre.counts min n greedy) -> k <= n.
Proof.
  unfold Sre.counts. intros H.
  assert (Hin : In k (seq min (S n - min))).
  { destruct greedy; [now apply in_rev in H | exact H]. }
  apply in_seq in Hin. lia.
Qed.

Lemma first_some_none (A : Type) (f : nat -> option A) (ks : list nat) :
  (forall k, In k ks -> f k = None) -> Sre.first_some f ks = None.
Proof.
  induction ks as [|k ks IH]; intros H; simpl; [reflexivity|].
  rewrite (H k) by now left. apply IH. intros k' Hk'. apply H. now right.
Qed.

(** A greedy repetition that can go on after its longest run does so. *)
Lemma exec_repeat_greedy (cls : char -> bool) (min : nat) (p : Sre.pattern)
  (i : nat) (rest : str) (mk : Sre.marks) (r : nat * Sre.marks) :
  min <= Sre.run_length cls rest ->
  Sre.exec p (i + Sre.run_length cls rest)
           (skipn (Sre.run_length cls rest) rest) mk = Some r ->
  Sre.exec (Sre.Repeat cls min true :: p) i rest mk = Some r.
Proof.
  intros Hmin H. cbn [Sre.exec]. rewrite (counts_greedy Hmin).
  cbn [Sre.first_some]. now rewrite H.
Qed.

Lemma exec_repeat_short (cls : char -> bool) (min : nat) (greedy : bool)
  (p : Sre.pattern) (i : nat) (rest : str) (mk : Sre.marks) :
  Sre.run_length cls rest < min ->
  Sre.exec (Sre.Repeat cls min greedy :: p) i rest mk = None.
Proof. intros H. cbn [Sre.exec]. now rewrite (counts_none greedy H). Qed.

Lemma run_length_prefix (cls : char -> bool) (w r : str) :
  forallb cls w = true ->
  Sre.run_length cls (w ++ r) = List.length w + Sre.run_length cls r.
Proof.
  induction w as [|c w IH]; simpl; [reflexivity|].
  intros H. apply andb_true_iff in H as [Hc Hw]. rewrite Hc. now rewrite IH.
Qed.

(** ** More on the slide spider *)

Lemma exec_whitespace_run (i : nat) (rest : str) (mk : Sre.marks) :
  Sre.exec Slides.whitespace_run i rest mk
  = match Sre.run_length isspace rest with
    | O => None
    | S k => Some (i + S k, mk)
    end.
Proof.
  unfold Slides.whitespace_run.
  destruct (Sre.run_length isspace rest) as [|k] eqn:E.
  - apply exec_repeat_short. lia.
  - apply exec_repeat_greedy; rewrite E; [lia | reflexivity].
Qed.




(** The substitution keeps a final character that is not whitespace. *)
Lemma collapse_keeps_last (d : char) (a : str) :
  isspace d = false ->
  forall i skip,
    skip = 0 \/ skip = Sre.run_length isspace (a ++ [d]) ->
    exists out,
      Sre.sub_from Slides.whitespace_run (lit " ") i (a ++ [d]) skip
      = out ++ [d].
Proof.
  intros Hd. induction a as [|c a IH]; intros i skip Hskip.
  - simpl app in *. cbn [Sre.run_length] in Hskip. rewrite Hd in Hskip.
    assert (skip = 0) by now destruct Hskip. subst.
    cbn [Sre.sub_from]. rewrite !exec_whitespace_run.
    cbn [Sre.run_length]. rewrite Hd. now exists [].
  - change ((c :: a) ++ [d]) with (c :: (a ++ [d])) in *.
    cbn [Sre.sub_from]. destruct skip as [|k].
    + rewrite exec_whitespace_run. cbn [Sre.run_length].
      destruct (isspace c).
      * replace (i + S (Sre.run_length isspace (a ++ [d])) - i)
          with (S (Sre.run_length isspace (a ++ [d]))) by lia.
        destruct (IH (S i) _ (or_intror eq_refl)) as [out Hout].
        rewrite Hout. now exists (lit " " ++ out).
      * destruct (IH (S i) 0 (or_introl eq_refl)) as [out Hout].
        rewrite Hout. now exists (c :: out).
    + destruct Hskip as [Hskip | Hskip]; [discriminate|].
      cbn [Sre.run_length] in Hskip.
      destruct (isspace c); [|discriminate]. injection Hskip as Hk.
      apply (IH (S i) k). now right.
Qed.

Lemma endswith_snoc (s : str) (d : char) : endswith (s ++ [d]) [d] = true.
Proof.
  unfold endswith. rewrite rev_app_distr. simpl.
  unfold eqb_char. rewrite N.eqb_refl. now destruct (rev s).
Qed.

Lemma endswith_char (s : str) (d : char) :
  endswith s [d] = true -> exists a, s = a ++ [d].
Proof.
  unfold endswith. simpl rev. intros H.
  destruct (rev s) as [|y t] eqn:E; [discriminate|].
  simpl in H. apply andb_true_iff in H as [H _]. apply N.eqb_eq in H. subst y.
  exists (rev t). rewrite <- (rev_involutive s), E. reflexivity.
Qed.


(** X8: the answer of a slide is the sentinel or ends with a full
    stop. *)
Theorem answer_ends_with_full_stop (text_elements : list Slides.TextEntry)
  (title : str) :
  Slides.build_description text_elements title = lit "No description available"
  \/ endswith (Slides.build_description text_elements title) (lit ".") = true.
Proof.
  unfold Slides.build_description.
  destruct (filter _ _) as [|p ps]; [now left | right].
  set (d := join (lit ". ") (p :: ps)).
  assert (Hd : exists a, (if endswith d (lit ".") then d else d ++ lit ".")
                         = a ++ [46%N]).
  { destruct (endswith d (lit ".")) eqn:E.
    - now apply endswith_char.
    - now exists d. }
  destruct Hd as [a Ha]. rewrite Ha. unfold Sre.sub.
  destruct (@collapse_keeps_last 46%N a eq_refl 0 0 (or_introl eq_refl))
    as [out Hout].
  match goal with
  | |- endswith ?x _ = true =>
      assert (E : x = out ++ [46%N]) by exact Hout; rewrite E
  end.
  apply endswith_snoc.
Qed.

(** X9: every entry collected from a slide has a text that is not empty
    and has no whitespace at either end, and there are at most as many
    entries as page elements. *)
Theorem collected_texts_trimmed (slide : Slides.Slide) :
  forallb (fun t => trimmed (Slides.te_text t)) (Slides.collect slide) = true
  /\ List.length (Slides.collect slide)
     <= List.length (Slides.get (Slides.pageElements slide) []).
Proof.
  unfold Slides.collect.
  induction (Slides.get (Slides.pageElements slide) []) as [|e es [IHt IHl]].
  - split; [reflexivity | simpl; lia].
  - cbn [flat_map]. rewrite forallb_app, length_app, IHt.
    destruct (Slides.shape e) as [sh|]; [|split; simpl; [reflexivity | lia]].
    destruct (Slides.text sh) as [tx|]; [|split; simpl; [reflexivity | lia]].
    match goal with
    | |- context [if truthy (strip ?x) then _ else _] =>
        destruct (truthy (strip x)) eqn:E
    end.
    + cbn [forallb Slides.te_text List.length]. rewrite (trimmed_strip _ E).
      split; [reflexivity | simpl; lia].
    + split; simpl; [reflexivity | lia].
Qed.

(** Stability of the insertion. *)
Lemma insert_at_height (y : Q) (x : Slides.TextEntry)
  (l : list Slides.TextEntry) :
  at_height y (Slides.insert x l) = at_height y (x :: l).
Proof.
  induction l as [|z l IH]; [reflexivity|].
  cbn [Slides.insert].
  destruct (Qle_bool (Slides.te_translateY x) (Slides.te_translateY z)) eqn:E;
    [reflexivity|].
  unfold at_height in *. cbn [filter] in *. rewrite IH.
  destruct (Qeq_bool (Slides.te_translateY z) y) eqn:Ez;
    destruct (Qeq_bool (Slides.te_translateY x) y) eqn:Ex; try reflexivity.
  apply Qeq_bool_iff in Ez, Ex.
  assert (H : Qle_bool (Slides.te_translateY x) (Slides.te_translateY z) = true).
  { apply Qle_bool_iff. rewrite Ez, Ex. apply Qle_refl. }
  congruence.
Qed.

(** X10: sorting puts the entries top to bottom, keeps exactly the
    entries it was given, and keeps entries of equal height in their
    original order. *)
Theorem sort_top_to_bottom (l : list Slides.TextEntry) :
  Sorted above (Slides.sort l)
  /\ Permutation (Slides.sort l) l
  /\ forall y, at_height y (Slides.sort l) = at_height y l.
Proof.
  split; [apply sort_sorted | split; [apply sort_perm|]].
  intros y. induction l as [|x l IH]; [reflexivity|].
  simpl Slides.sort. rewrite insert_at_height.
  unfold at_height in *. cbn [filter]. now rewrite IH.
Qed.

(** X11: a page element is a title exactly when its first text element
    has a text run whose style says bold and gives a font size of at
    least 18; a missing key on the way, also a missing font size with its
    default of 12, makes it no title, whatever the later text runs say. *)
Theorem is_title_element_iff (element : Slides.PageElement) :
  Slides.is_title_element element = true
  <-> exists sh tx first others run st size m,
        Slides.shape element = Some sh
        /\ Slides.text sh = Some tx
        /\ Slides.textElements tx = Some (first :: others)
        /\ Slides.textRun first = Some run
        /\ Slides.style run = Some st
        /\ Slides.bold st = Some true
        /\ Slides.fontSize st = Some size
        /\ Slides.magnitude size = Some m
        /\ (18 # 1 <= m)%Q.
Proof.
  unfold Slides.is_title_element. split.
  - destruct (Slides.shape element) as [sh|]; [|discriminate].
    destruct (Slides.text sh) as [tx|] eqn:Etx; [|discriminate].
    destruct (Slides.textElements tx) as [[|first others]|] eqn:Ete;
      try discriminate.
    destruct (Slides.textRun first) as [run|] eqn:Erun; cbn [Slides.get];
      [|cbn; discriminate].
    destruct (Slides.style run) as [st|] eqn:Est; cbn [Slides.get];
      [|cbn; discriminate].
    destruct (Slides.bold st) as [[|]|] eqn:Eb; cbn [Slides.get];
      try (cbn; discriminate).
    destruct (Slides.fontSize st) as [size|] eqn:Efs; cbn [Slides.get];
      [|cbn; discriminate].
    destruct (Slides.magnitude size) as [m|] eqn:Em; cbn [Slides.get];
      [|cbn; discriminate].
    cbn. intros H. apply Qle_bool_iff in H.
    exists sh, tx, first, others, run, st, size, m. now repeat split.
  - intros (sh & tx & first & others & run & st & size & m
            & H1 & H2 & H3 & H4 & H5 & H6 & H7 & H8 & H).
    rewrite H1, H2, H3, H4. cbn [Slides.get]. rewrite H5. cbn [Slides.get].
    rewrite H6, H7. cbn [Slides.get]. rewrite H8. cbn.
    now apply Qle_bool_iff.
Qed.

Lemma is_title_element_iff_witness :
  Slides.is_title_element
    (text_box (lit "Eligibility") (10 # 1)%Q true (24 # 1)%Q) = true.
Proof.
  apply (proj2 (is_title_element_iff
                  (text_box (lit "Eligibility") (10 # 1)%Q true (24 # 1)%Q))).
  repeat eexists; try reflexivity. discriminate.
Defined.

Lemma find_in (A : Type) (f : A -> bool) (l : list A) (a : A) :
  find f l = Some a -> In a l.
Proof. intros H. now apply find_some in H. Qed.

(** X12: for a slide without text entries no question is picked, and
    otherwise the picked question is the text of one of the entries: the
    default [Untitled] inside the fallback is never taken. *)
Theorem picked_title_is_an_entry (text_elements : list Slides.TextEntry) :
  match text_elements with
  | [] => Slides.pick_title text_elements = None
  | _ :: _ =>
      exists t, In t text_elements
                /\ Slides.pick_title text_elements = Some (Slides.te_text t)
  end.
Proof.
  destruct text_elements as [|t0 l]; [reflexivity|].
  unfold Slides.pick_title, Slides.next_text.
  destruct (find Slides.te_is_title (t0 :: l)) as [t|] eqn:Ef.
  - apply find_in in Ef. cbn [truthy_opt].
    destruct (truthy (Slides.te_text t)) eqn:Et; cbn [negb andb].
    + now exists t.
    + match goal with
      | |- context [find ?f (t0 :: l)] =>
          destruct (find f (t0 :: l)) as [t'|] eqn:Ef'
      end.
      * apply find_in in Ef'. now exists t'.
      * exists t0. split; [now left | reflexivity].
  - cbn [truthy_opt negb andb].
    match goal with
    | |- context [find ?f (t0 :: l)] =>
        destruct (find f (t0 :: l)) as [t'|] eqn:Ef'
    end.
    + apply find_in in Ef'. now exists t'.
    + exists t0. split; [now left | reflexivity].
Qed.

(** X13: when the setting is there and the three calls succeed, [start]
    raises nothing, logs no error, makes each call once and yields exactly
    one item per slide of the presentation. *)
Theorem start_yields_one_item_per_slide (islower : char -> bool)
  (upper : char -> str) (C S : Type) (w : Slides.World C S)
  (file : str) (creds : C) (service : S) (presentation : Slides.Presentation) :
  Slides.service_account_file w = Some file ->
  truthy file = true ->
  Slides.from_service_account_file w file = inr creds ->
  Slides.build w creds = inr service ->
  Slides.execute_get w service Slides.presentation_id = inr presentation ->
  let run := Slides.start islower upper w in
  List.length (Slides.yielded run)
  = List.length (Slides.get (Slides.slides presentation) [])
  /\ Slides.raised run = None
  /\ Slides.events run
     = [Slides.LoadCredentials file; Slides.BuildService;
        Slides.GetPresentation Slides.presentation_id].
Proof.
  intros Hf Ht Hl Hb Hx. unfold Slides.start.
  rewrite Hf, Ht, Hl, Hb, Hx. cbn [negb Slides.yielded Slides.raised Slides.events].
  repeat split.
  induction (Slides.get (Slides.slides presentation) []) as [|s ss IH];
    [reflexivity|].
  cbn [flat_map]. rewrite length_app, IH.
  destruct (process_slide_one islower upper s) as (item & E & _).
  now rewrite E.
Qed.

Lemma start_yields_one_item_per_slide_witness :
  List.length
    (Slides.yielded
       (Slides.start Slides.ascii_islower Slides.ascii_upper two_slide_world))
  = 2.
Proof.
  exact (proj1 (@start_yields_one_item_per_slide
                  Slides.ascii_islower Slides.ascii_upper unit unit
                  two_slide_world (lit "service-account.json") tt tt
                  {| Slides.slides := Some [eligibility_slide; benefits_slide] |}
                  eq_refl eq_refl eq_refl eq_refl eq_refl)).
Defined.

(** ** The numbering pattern *)

Lemma sub_numbering_tail (rest : str) :
  forall i skip,
    Sre.sub_from Slides.numbering [] (S i) rest skip = skipn skip rest.
Proof.
  induction rest as [|c r IH]; intros i skip; cbn [Sre.sub_from].
  - now destruct skip.
  - destruct skip as [|k]; [|apply IH].
    change (Sre.exec Slides.numbering (S i) (c :: r) Sre.no_marks)
      with (@None (nat * Sre.marks)).
    now rewrite IH.
Qed.

Lemma exec_numbering_start (s : str) (mk : Sre.marks) :
  Sre.exec Slides.numbering 0 s mk
  = match Sre.run_length Sre.digit s with
    | O => None
    | S d =>
        Some (S d + Sre.run_length
                      (fun c => Sre.one_of (lit ".)") c || isspace c)
                      (skipn (S d) s), mk)
    end.
Proof.
  unfold Slides.numbering.
  change (Sre.exec (Sre.AtBeginning :: ?p) 0 s mk) with (Sre.exec p 0 s mk).
  destruct (Sre.run_length Sre.digit s) as [|d] eqn:E.
  - apply exec_repeat_short. lia.
  - apply exec_repeat_greedy; rewrite E; [lia|].
    apply exec_repeat_greedy; [lia | reflexivity].
Qed.

(** X14: the substitution that removes numbering removes exactly the
    digits at the start of the title and the full stops, closing
    parentheses and whitespace that follow them, and leaves a title that
    does not start with a digit as it is. *)
Theorem numbering_removed (s : str) :
  Sre.sub Slides.numbering [] s = drop_numbering s.
Proof.
  unfold Sre.sub, drop_numbering. destruct s as [|c r].
  - reflexivity.
  - cbn [Sre.sub_from]. rewrite exec_numbering_start.
    destruct (Sre.run_length Sre.digit (c :: r)) as [|d]; cbn [Nat.sub Nat.add].
    + now rewrite sub_numbering_tail.
    + rewrite sub_numbering_tail. cbn [app skipn].
      rewrite skipn_skipn. f_equal. lia.
Qed.

(** ** The question-and-answer pattern *)

Lemma exec_chars (l : str) (p : Sre.pattern) :
  forall i rest mk,
    Sre.exec (map Sre.Literal l ++ p) i (l ++ rest) mk
    = Sre.exec p (i + List.length l) rest mk.
Proof.
  induction l as [|c l IH]; intros i rest mk; cbn [map app List.length].
  - now rewrite Nat.add_0_r.
  - cbn [Sre.exec]. unfold eqb_char. rewrite N.eqb_refl, IH. f_equal. lia.
Qed.

Lemma exec_literal (s : string) (p : Sre.pattern) (i : nat) (rest : str)
  (mk : Sre.marks) :
  Sre.exec (Sre.literal s ++ p) i (lit s ++ rest) mk
  = Sre.exec p (i + List.length (lit s)) rest mk.
Proof. apply exec_chars. Qed.

Lemma exec_chars_mismatch (l : str) (p : Sre.pattern) :
  forall i rest mk,
    startswith rest l = false ->
    Sre.exec (map Sre.Literal l ++ p) i rest mk = None.
Proof.
  induction l as [|c l IH]; intros i rest mk H.
  - now destruct rest.
  - cbn [map app Sre.exec]. destruct rest as [|x r]; [reflexivity|].
    simpl in H. unfold eqb_char in *. rewrite N.eqb_sym.
    destruct (N.eqb c x); [|reflexivity]. now apply IH.
Qed.

Lemma search_needs_literal (l : str) (p : Sre.pattern) (rest : str) :
  contains rest l = false ->
  forall i, Sre.search_from (map Sre.Literal l ++ p) i rest = None.
Proof.
  induction rest as [|x r IH]; intros H i; cbn [Sre.search_from];
    cbn [contains] in H; apply orb_false_iff in H as [Hs Hc].
  - now rewrite exec_chars_mismatch.
  - rewrite exec_chars_mismatch by exact Hs. now apply IH.
Qed.

(** X15: a label that does not contain [Question:] is not parsed: the
    question is the text node and the answer is the parse-failure
    sentinel. *)
Theorem unparsed_label_falls_back (label q : str) :
  truthy label = true ->
  contains label (lit "Question:") = false ->
  truthy q = true ->
  Health.parse_faq (Health.mkFaq (Some label) (Some q))
  = [{| question := Some (strip q);
        answer := Some (lit "Could not parse answer from aria-label.");
        category := lit "Social Health Authority";
        tags := [lit "SHA"; lit "health"; lit "Kenya"];
        date_posted := Null;
        date_updated := Null;
        image := Unset |}].
Proof.
  intros Hl Hc Hq. unfold Health.parse_faq, Health.extract.
  cbn [Health.aria_label_sel Health.span_text_sel]. rewrite Hl.
  unfold Sre.search, Health.qa_pattern, Sre.literal at 1.
  rewrite (@search_needs_literal _ _ _ Hc). now rewrite Hq.
Qed.

Lemma unparsed_label_falls_back_witness :
  map answer
      (Health.parse_faq (Health.mkFaq (Some (lit "How do I register?"))
                                      (Some (lit "How do I register?"))))
  = [Some (lit "Could not parse answer from aria-label.")].
Proof.
  rewrite (@unparsed_label_falls_back (lit "How do I register?")
             (lit "How do I register?") eq_refl eq_refl eq_refl).
  reflexivity.
Defined.

Lemma skipn_app_length (A : Type) (x r : list A) :
  skipn (List.length x) (x ++ r) = r.
Proof. induction x as [|c x IH]; simpl; [reflexivity | exact IH]. Qed.

Lemma firstn_app_length (A : Type) (x r : list A) :
  firstn (List.length x) (x ++ r) = x.
Proof. induction x as [|c x IH]; simpl; [reflexivity | now f_equal]. Qed.

Lemma skipn_within (x t : str) (j : nat) :
  j < List.length x ->
  exists c r, skipn j (x ++ t) = c :: r /\ In c x.
Proof.
  revert j. induction x as [|c x IH]; intros j Hj; simpl in Hj; [lia|].
  destruct j as [|j].
  - exists c, (x ++ t). split; [reflexivity | now left].
  - destruct (IH j) as (c' & r & E & Hin); [lia|].
    exists c', r. split; [exact E | now right].
Qed.

Lemma run_length_not_ws (a : str) :
  starts_ws a = false -> Sre.run_length isspace a = 0.
Proof. destruct a as [|c a]; simpl; [reflexivity | now intros ->]. Qed.

Lemma run_length_any (s : str) : Sre.run_length Sre.any s = List.length s.
Proof. induction s as [|c s IH]; simpl; [reflexivity | now f_equal]. Qed.

Lemma run_length_lt (cls : char -> bool) (x t : str) :
  forallb cls x = false -> Sre.run_length cls (x ++ t) < List.length x.
Proof.
  induction x as [|c x IH]; simpl; [discriminate|].
  destruct (cls c); simpl; intros H; [|lia]. apply IH in H. lia.
Qed.

Lemma blank_ends_ws (x : str) :
  forallb isspace x = true -> truthy x = true -> ends_ws x = true.
Proof.
  unfold ends_ws. rewrite <- forallb_rev, <- rev_truthy.
  destruct (rev x) as [|c r]; [discriminate|]. simpl.
  intros H _. now apply andb_true_iff in H as [H _].
Qed.

Lemma starts_ws_app (q x : str) :
  truthy q = true -> starts_ws (q ++ x) = starts_ws q.
Proof. now destruct q. Qed.

Lemma exec_open (g : nat) (p : Sre.pattern) (i : nat) (rest : str)
  (mk : Sre.marks) :
  Sre.exec (Sre.GroupOpen g :: p) i rest mk
  = Sre.exec p i rest {| Sre.opens := (g, i) :: Sre.opens mk;
                         Sre.closes := Sre.closes mk |}.
Proof. reflexivity. Qed.

Lemma exec_close (g : nat) (p : Sre.pattern) (i : nat) (rest : str)
  (mk : Sre.marks) :
  Sre.exec (Sre.GroupClose g :: p) i rest mk
  = Sre.exec p i rest {| Sre.opens := Sre.opens mk;
                         Sre.closes := (g, i) :: Sre.closes mk |}.
Proof. reflexivity. Qed.

(** Greedy whitespace before something that is not whitespace takes all
    of it. *)
Lemma exec_ws_greedy (w r : str) (p : Sre.pattern) (i : nat)
  (mk : Sre.marks) (x : nat * Sre.marks) :
  forallb isspace w = true ->
  starts_ws r = false ->
  Sre.exec p (i + List.length w) r mk = Some x ->
  Sre.exec (Sre.Repeat isspace 0 true :: p) i (w ++ r) mk = Some x.
Proof.
  intros Hw Hr H. apply exec_repeat_greedy; [lia|].
  rewrite run_length_prefix by exact Hw.
  rewrite run_length_not_ws by exact Hr.
  now rewrite Nat.add_0_r, skipn_app_length.
Qed.

Lemma first_some_seq (A : Type) (f : nat -> option A) (x : A) :
  forall len start k0,
    (forall k, start <= k < k0 -> f k = None) ->
    start <= k0 < start + len ->
    f k0 = Some x ->
    Sre.first_some f (seq start len) = Some x.
Proof.
  induction len as [|len IH]; intros start k0 Hnone Hk Hx; [lia|].
  cbn [seq Sre.first_some].
  destruct (Nat.eq_dec start k0) as [->|Hne]; [now rewrite Hx|].
  rewrite (Hnone start) by lia.
  apply (IH (S start) k0); [intros k Hk'; apply Hnone; lia | lia | exact Hx].
Qed.

(** A lazy repetition stops at the first count after which the rest of
    the pattern matches. *)
Lemma exec_repeat_lazy (cls : char -> bool) (p : Sre.pattern) (i : nat)
  (rest : str) (mk : Sre.marks) (x : nat * Sre.marks) (k0 : nat) :
  k0 <= Sre.run_length cls rest ->
  (forall k, k < k0 -> Sre.exec p (i + k) (skipn k rest) mk = None) ->
  Sre.exec p (i + k0) (skipn k0 rest) mk = Some x ->
  Sre.exec (Sre.Repeat cls 0 false :: p) i rest mk = Some x.
Proof.
  intros Hk Hnone Hx. cbn [Sre.exec]. unfold Sre.counts.
  rewrite Nat.sub_0_r.
  apply first_some_seq with (k0 := k0);
    [intros k Hk'; apply Hnone; lia | lia | exact Hx].
Qed.

(** Inside a question without a comma, the comma of the pattern cannot be
    found. *)
Lemma comma_blocked (q t : str) (p : Sre.pattern) (g k i : nat)
  (mk : Sre.marks) :
  k < List.length q ->
  ends_ws q = false ->
  comma_free q = true ->
  Sre.exec (Sre.GroupClose g :: Sre.Repeat isspace 0 true
                             :: Sre.literal "," ++ p)
           i (skipn k (q ++ t)) mk = None.
Proof.
  intros Hk He Hc. rewrite exec_close. cbn [Sre.exec].
  apply first_some_none. intros j Hj. apply counts_max in Hj.
  rewrite skipn_app in Hj |- *.
  replace (k - List.length q) with 0 in * by lia. cbn [skipn] in *.
  set (qb := skipn k q) in *.
  assert (Hq : q = firstn k q ++ qb) by (symmetry; apply firstn_skipn).
  assert (Hlen : List.length qb = List.length q - k) by apply length_skipn.
  assert (Htq : truthy qb = true) by (destruct qb; [simpl in Hlen; lia | reflexivity]).
  assert (Hb : forallb isspace qb = false).
  { destruct (forallb isspace qb) eqn:E; [|reflexivity].
    rewrite Hq, ends_ws_app, Htq in He.
    rewrite blank_ends_ws in He by assumption. discriminate. }
  pose proof (@run_length_lt isspace qb t Hb) as Hlt.
  destruct (@skipn_within qb t j) as (c & r & E & Hin); [lia|].
  rewrite E. change (Sre.literal "," ++ p) with (Sre.Literal 44%N :: p).
  cbn [Sre.exec].
  assert (Hcq : In c q) by (rewrite Hq; apply in_or_app; now right).
  unfold comma_free in Hc. rewrite forallb_forall in Hc.
  apply Hc in Hcq. apply negb_true_iff in Hcq. now rewrite Hcq.
Qed.

(** The part of the pattern after the question, on the part of the label
    after the question. *)
Lemma exec_answer_part (w2 w3 w4 a : str) (i : nat) (mk : Sre.marks) :
  forallb isspace w2 = true ->
  forallb isspace w3 = true ->
  forallb isspace w4 = true ->
  starts_ws a = false ->
  let i2 := i + List.length w2 + 1 + List.length w3 + 7 + List.length w4 in
  Sre.exec (Sre.Repeat isspace 0 true
              :: Sre.literal "," ++ [Sre.Repeat isspace 0 true]
                 ++ Sre.literal "Answer:"
                 ++ [Sre.Repeat isspace 0 true; Sre.GroupOpen 2;
                     Sre.Repeat Sre.any 0 true; Sre.GroupClose 2])
           i (w2 ++ lit "," ++ w3 ++ lit "Answer:" ++ w4 ++ a) mk
  = Some (i2 + List.length a,
          {| Sre.opens := (2, i2) :: Sre.opens mk;
             Sre.closes := (2, i2 + List.length a) :: Sre.closes mk |}).
Proof.
  intros H2 H3 H4 Ha i2.
  apply exec_ws_greedy; [exact H2 | reflexivity|].
  rewrite exec_literal. cbn [app].
  apply exec_ws_greedy; [exact H3 | reflexivity|].
  rewrite exec_literal. cbn [app].
  apply exec_ws_greedy; [exact H4 | exact Ha|].
  rewrite exec_open. apply exec_repeat_greedy; [lia|].
  rewrite run_length_any, skipn_all. rewrite exec_close. cbn [Sre.exec].
  change (List.length (lit ",")) with 1.
  change (List.length (lit "Answer:")) with 7.
  subst i2. cbn [Sre.opens Sre.closes]. reflexivity.
Qed.

Lemma exec_qa_label (w1 q w2 w3 w4 a : str) :
  forallb isspace w1 = true ->
  forallb isspace w2 = true ->
  forallb isspace w3 = true ->
  forallb isspace w4 = true ->
  trimmed q = true ->
  comma_free q = true ->
  starts_ws a = false ->
  let i1 := 9 + List.length w1 in
  let i2 := i1 + List.length q + List.length w2 + 1 + List.length w3 + 7
            + List.length w4 in
  Sre.exec Health.qa_pattern 0 (qa_label w1 q w2 w3 w4 a) Sre.no_marks
  = Some (i2 + List.length a,
          {| Sre.opens := [(2, i2); (1, i1)];
             Sre.closes := [(2, i2 + List.length a);
                            (1, i1 + List.length q)] |}).
Proof.
  intros H1 H2 H3 H4 Hq Hc Ha i1 i2.
  unfold trimmed in Hq.
  apply andb_true_iff in Hq as [Hq He]. apply andb_true_iff in Hq as [Htq Hs].
  apply negb_true_iff in He, Hs.
  unfold Health.qa_pattern, qa_label.
  rewrite exec_literal. cbn [app].
  change (0 + List.length (lit "Question:")) with 9.
  apply exec_ws_greedy; [exact H1 | now rewrite starts_ws_app|].
  rewrite exec_open.
  apply exec_repeat_lazy with (k0 := List.length q).
  - rewrite run_length_any, length_app. lia.
  - intros k Hk. now apply comma_blocked.
  - rewrite skipn_app_length, exec_close.
    rewrite exec_answer_part by assumption.
    cbn [Sre.opens Sre.closes Sre.no_marks]. subst i1 i2. reflexivity.
Qed.

Lemma search_at_start (p : Sre.pattern) (s : str) (e : nat) (mk : Sre.marks) :
  Sre.exec p 0 s Sre.no_marks = Some (e, mk) ->
  Sre.search p s
  = Some {| Sre.m_start := 0; Sre.m_end := e; Sre.m_marks := mk |}.
Proof.
  intros H. unfold Sre.search. destruct s; cbn [Sre.search_from]; now rewrite H.
Qed.

Lemma strip_truthy (a : str) :
  starts_ws a = false -> truthy a = true -> truthy (strip a) = true.
Proof.
  intros Hs Ht. unfold strip. rewrite lstrip_fixed by exact Hs.
  destruct (rstrip_decomp a) as (w & Hw & Hall).
  destruct (rstrip a) as [|c r]; [|reflexivity].
  simpl in Hw. subst w. destruct a as [|c a]; [discriminate|].
  simpl in Hs, Hall. now rewrite Hs in Hall.
Qed.

(** The label of a trimmed question and an answer that starts with no
    whitespace. *)
Lemma formatted_label_parsed_trimmed (w1 q w2 w3 w4 a : str)
  (span_text : option str) :
  forallb isspace w1 = true ->
  forallb isspace w2 = true ->
  forallb isspace w3 = true ->
  forallb isspace w4 = true ->
  trimmed q = true ->
  comma_free q = true ->
  starts_ws a = false ->
  truthy a = true ->
  Health.parse_faq
    (Health.mkFaq (Some (qa_label w1 q w2 w3 w4 a)) span_text)
  = [{| question := Some q;
        answer := Some (strip a);
        category := lit "Social Health Authority";
        tags := [lit "SHA"; lit "health"; lit "Kenya"];
        date_posted := Null;
        date_updated := Null;
        image := Unset |}].
Proof.
  intros H1 H2 H3 H4 Hq Hc Ha Hta.
  pose proof (@exec_qa_label w1 q w2 w3 w4 a H1 H2 H3 H4 Hq Hc Ha) as Hx.
  cbv zeta in Hx. apply search_at_start in Hx.
  unfold Health.parse_faq, Health.extract.
  cbn [Health.aria_label_sel Health.span_text_sel].
  change (truthy (qa_label w1 q w2 w3 w4 a)) with true. cbv iota.
  rewrite Hx. unfold Sre.group.
  cbn [Sre.m_marks Sre.opens Sre.closes Sre.lookup Nat.eqb].
  assert (G1 : firstn (9 + List.length w1 + List.length q - (9 + List.length w1))
                 (skipn (9 + List.length w1) (qa_label w1 q w2 w3 w4 a)) = q).
  { replace (9 + List.length w1 + List.length q - (9 + List.length w1))
      with (List.length q) by lia.
    unfold qa_label. rewrite app_assoc.
    replace (9 + List.length w1)
      with (List.length (lit "Question:" ++ w1))
      by (rewrite length_app; reflexivity).
    rewrite skipn_app_length. apply firstn_app_length. }
  set (i2 := 9 + List.length w1 + List.length q + List.length w2 + 1
             + List.length w3 + 7 + List.length w4) in *.
  assert (G2 : firstn (i2 + List.length a - i2)
                 (skipn i2 (qa_label w1 q w2 w3 w4 a)) = a).
  { replace (i2 + List.length a - i2) with (List.length a) by lia.
    assert (Hs : qa_label w1 q w2 w3 w4 a
                 = (lit "Question:" ++ w1 ++ q ++ w2 ++ lit "," ++ w3
                    ++ lit "Answer:" ++ w4) ++ a).
    { unfold qa_label. now rewrite <- !app_assoc. }
    rewrite Hs.
    replace i2 with (List.length (lit "Question:" ++ w1 ++ q ++ w2 ++ lit ","
                                  ++ w3 ++ lit "Answer:" ++ w4)).
    - rewrite skipn_app_length. apply firstn_all.
    - rewrite !length_app.
      change (List.length (lit "Question:")) with 9.
      change (List.length (lit ",")) with 1.
      change (List.length (lit "Answer:")) with 7.
      subst i2. lia. }
  rewrite G1, G2.
  assert (Hfix : strip q = q) by now apply trimmed_fixed.
  rewrite !Hfix.
  unfold trimmed in Hq. apply andb_true_iff in Hq as [Hq _].
  apply andb_true_iff in Hq as [Hq _]. rewrite Hq.
  rewrite strip_truthy by assumption. cbn [andb].
  now rewrite strip_strip.
Qed.

Lemma qa_label_regroup (w1 wl q wr w2 w3 w4 wa a : str) :
  qa_label w1 (wl ++ q ++ wr) w2 w3 w4 (wa ++ a)
  = qa_label (w1 ++ wl) q (wr ++ w2) w3 (w4 ++ wa) a.
Proof. unfold qa_label. now rewrite <- !app_assoc. Qed.

Lemma lstrip_truthy (a : str) :
  truthy (strip a) = true -> truthy (lstrip a) = true.
Proof. unfold strip, rstrip. now destruct (lstrip a). Qed.

Lemma strip_lstrip (a : str) : strip (lstrip a) = strip a.
Proof.
  unfold strip. now rewrite (lstrip_fixed (lstrip a) (lstrip_starts_ws a)).
Qed.

(** X16: a label laid out as [Question:], the question, a comma,
    [Answer:] and the answer, with any whitespace between the parts, is
    taken apart again: when the question has no comma and neither the
    question nor the answer is blank, the item's question is the stripped
    question and its answer is the stripped answer. *)
Theorem formatted_label_parsed (w1 q w2 w3 w4 a : str)
  (span_text : option str) :
  forallb isspace w1 = true ->
  forallb isspace w2 = true ->
  forallb isspace w3 = true ->
  forallb isspace w4 = true ->
  comma_free q = true ->
  truthy (strip q) = true ->
  truthy (strip a) = true ->
  Health.parse_faq
    (Health.mkFaq (Some (qa_label w1 q w2 w3 w4 a)) span_text)
  = [{| question := Some (strip q);
        answer := Some (strip a);
        category := lit "Social Health Authority";
        tags := [lit "SHA"; lit "health"; lit "Kenya"];
        date_posted := Null;
        date_updated := Null;
        image := Unset |}].
Proof.
  intros H1 H2 H3 H4 Hc Hq Ha.
  destruct (lstrip_decomp q) as (wl & Eq & Hwl).
  destruct (rstrip_decomp (lstrip q)) as (wr & Er & Hwr).
  destruct (lstrip_decomp a) as (wa & Ea & Hwa).
  fold (strip q) in Er.
  assert (Eq' : q = wl ++ strip q ++ wr) by (rewrite <- Er; exact Eq).
  assert (Hcs : comma_free (strip q) = true).
  { unfold comma_free in *. rewrite Eq', !forallb_app in Hc.
    apply andb_true_iff in Hc as [_ Hc].
    now apply andb_true_iff in Hc as [Hc _]. }
  replace (qa_label w1 q w2 w3 w4 a)
    with (qa_label (w1 ++ wl) (strip q) (wr ++ w2) w3 (w4 ++ wa) (lstrip a))
    by (rewrite <- qa_label_regroup, <- Eq', <- Ea; reflexivity).
  rewrite formatted_label_parsed_trimmed.
  - now rewrite strip_lstrip.
  - rewrite forallb_app. now rewrite H1, Hwl.
  - rewrite forallb_app. now rewrite Hwr, H2.
  - exact H3.
  - rewrite forallb_app. now rewrite H4, Hwa.
  - now apply trimmed_strip.
  - exact Hcs.
  - apply lstrip_starts_ws.
  - now apply lstrip_truthy.
Qed.

Lemma formatted_label_parsed_witness :
  map (fun item => (question item, answer item))
      (Health.parse_faq
         (Health.mkFaq
            (Some (qa_label (lit " ") (lit "How do I register? ") []
                            (lit " ") (lit " ") (lit " Visit the portal. ")))
            None))
  = [(Some (lit "How do I register?"), Some (lit "Visit the portal."))].
Proof.
  rewrite (@formatted_label_parsed (lit " ") (lit "How do I register? ") []
             (lit " ") (lit " ") (lit " Visit the portal. ") None
             eq_refl eq_refl eq_refl eq_refl eq_refl eq_refl eq_refl).
  reflexivity.
Defined.

(** ** Titles that need no cleaning *)








(** ** The traversal of the whole site *)

Section SiteTraversal.

Variable urljoin : str -> str -> str.
Variable fetch : str -> Kra.Response.

Lemma run_chain_then (n : nat) :
  forall fuel u rest st,
    Kra.pending st = (u, Kra.ParseCategoryCb) :: rest ->
    Kra.ends_after urljoin fetch n u ->
    Kra.run urljoin fetch (S n + fuel) st
    = Kra.run urljoin fetch fuel
        {| Kra.pending := rest;
           Kra.fetched := Kra.fetched st ++ Kra.chain urljoin fetch n u;
           Kra.emitted :=
             Kra.emitted st
             ++ flat_map (fun v => page_items (fetch v))
                         (Kra.chain urljoin fetch n u) |}.
Proof.
  induction n as [|n IH]; intros fuel u rest st Hp He.
  - cbn [Kra.ends_after] in He. cbn [Nat.add].
    rewrite (run_next urljoin fetch fuel st Hp), step_category, He.
    cbn [Kra.chain flat_map app]. now rewrite app_nil_r.
  - destruct He as (u' & Hn & He).
    change (S (S n) + fuel) with (S (S n + fuel)).
    rewrite (run_next urljoin fetch (S n + fuel) st Hp), step_category, Hn.
    erewrite (IH fuel u'); [| reflexivity | exact He].
    cbn [Kra.fetched Kra.emitted Kra.chain]. rewrite Hn. cbn [flat_map].
    now rewrite <- !app_assoc.
Qed.

Lemma run_categories (len : str -> nat) (urls : list str) :
  forall st,
    Kra.pending st = map (fun u => (u, Kra.ParseCategoryCb)) urls ->
    Forall (fun u => Kra.ends_after urljoin fetch (len u) u) urls ->
    Kra.run urljoin fetch (list_sum (map (fun u => S (len u)) urls)) st
    = Some {| Kra.pending := [];
              Kra.fetched := Kra.fetched st ++ category_pages urljoin fetch len urls;
              Kra.emitted :=
                Kra.emitted st
                ++ flat_map (fun v => page_items (fetch v))
                            (category_pages urljoin fetch len urls) |}.
Proof.
  induction urls as [|u urls IH]; intros st Hp Hall.
  - rewrite run_done by exact Hp. cbn. rewrite !app_nil_r.
    destruct st as [p f e]. cbn in Hp. now subst p.
  - inversion Hall as [|? ? Hu Hrest]; subst.
    change (list_sum (map (fun u0 => S (len u0)) (u :: urls)))
      with (S (len u) + list_sum (map (fun u0 => S (len u0)) urls)).
    rewrite (@run_chain_then (len u) _ u _ st Hp Hu).
    rewrite IH; [| reflexivity | exact Hrest].
    cbn [Kra.fetched Kra.emitted]. unfold category_pages. cbn [flat_map].
    now rewrite flat_map_app, <- !app_assoc.
Qed.

End SiteTraversal.

(** X18: with the traversal controller as modelled, the traversal of the
    whole site from its index page ends when the chain of Next links of
    every category ends; the index page gives no item, and the items are
    those of the pages of every category's chain. *)
Theorem site_traversal_ends (urljoin : str -> str -> str)
  (fetch : str -> Kra.Response) (index_page : str) (len : str -> nat) :
  let urls := category_urls urljoin (fetch index_page) in
  Forall (fun u => Kra.ends_after urljoin fetch (len u) u) urls ->
  exists fuel st,
    Kra.run urljoin fetch fuel (start_site index_page) = Some st
    /\ Kra.fetched st = index_page :: category_pages urljoin fetch len urls
    /\ Kra.emitted st
       = flat_map (fun v => page_items (fetch v))
                  (category_pages urljoin fetch len urls).
Proof.
  intros urls Hall.
  set (st1 := Kra.step urljoin fetch (index_page, Kra.ParseCb) []
                       (start_site index_page)).
  assert (Hp : Kra.pending st1
               = map (fun u => (u, Kra.ParseCategoryCb)) urls).
  { unfold st1, Kra.step, Kra.run_callback, Kra.parse, Kra.follow.
    cbn [snd fst Kra.pending]. rewrite app_nil_r.
    unfold urls, category_urls.
    induction (Kra.category_links (fetch index_page)) as [|l ls IH];
      [reflexivity|].
    cbn [map Kra.requests_of flat_map app] in *. now f_equal. }
  assert (He : Kra.emitted st1 = []).
  { unfold st1, Kra.step, Kra.run_callback, Kra.parse.
    cbn [snd fst Kra.emitted start_site app].
    induction (Kra.category_links (fetch index_page)) as [|l ls IH];
      [reflexivity | exact IH]. }
  assert (Hf : Kra.fetched st1 = [index_page]) by reflexivity.
  exists (S (list_sum (map (fun u => S (len u)) urls))). eexists.
  rewrite (run_next urljoin fetch _ (start_site index_page) eq_refl).
  fold st1. rewrite (@run_categories urljoin fetch len urls st1 Hp Hall).
  split; [reflexivity|]. cbn [Kra.fetched Kra.emitted].
  now rewrite He, Hf.
Qed.

Lemma site_traversal_ends_witness :
  exists fuel st,
    Kra.run Kra.absolute indexed_site fuel (start_site (lit "/faqs")) = Some st
    /\ List.length (Kra.emitted st) = 3.
Proof.
  assert (H : Forall (fun u => Kra.ends_after Kra.absolute indexed_site
                                 ((fun _ => 1) u) u)
                     (category_urls Kra.absolute (indexed_site (lit "/faqs")))).
  { repeat constructor. exists (lit "/faqs/vat?page=2"). split; reflexivity. }
  destruct (@site_traversal_ends Kra.absolute indexed_site (lit "/faqs")
              (fun _ => 1) H) as (fuel & st & Hrun & _ & Hem).
  exists fuel, st. split; [exact Hrun|]. rewrite Hem. reflexivity.
Defined.

(** ** The trailing-punctuation pattern *)

Lemma trailing_mark_not_newline (c : char) :
  trailing_mark c = true -> eqb_char c 10%N = false.
Proof.
  intros H. destruct (eqb_char c 10%N) eqn:E; [|reflexivity].
  apply N.eqb_eq in E. subst c. discriminate H.
Qed.

Lemma skipn_in_run (cls : char -> bool) (rest : str) :
  forall k, k < Sre.run_length cls rest ->
            exists c r, skipn k rest = c :: r /\ cls c = true.
Proof.
  induction rest as [|x rest IH]; intros k Hk; cbn [Sre.run_length] in Hk;
    [lia|].
  destruct (cls x) eqn:Hx; [|lia].
  destruct k as [|k]; [now exists x, rest|].
  apply IH. lia.
Qed.

Lemma run_length_le (cls : char -> bool) (rest : str) :
  Sre.run_length cls rest <= List.length rest.
Proof.
  induction rest as [|x rest IH]; simpl; [lia|]. destruct (cls x); lia.
Qed.

Lemma exec_trailing (i : nat) (rest : str) (mk : Sre.marks) :
  Sre.exec Slides.trailing_punctuation i rest mk
  = if Nat.ltb 0 (Sre.run_length trailing_mark rest)
       && Sre.at_end (skipn (Sre.run_length trailing_mark rest) rest)
    then Some (i + Sre.run_length trailing_mark rest, mk)
    else None.
Proof.
  change Slides.trailing_punctuation
    with [Sre.Repeat trailing_mark 1 true; Sre.AtEnd].
  destruct (Sre.run_length trailing_mark rest) as [|d] eqn:E.
  - apply exec_repeat_short. lia.
  - cbn [Sre.exec]. rewrite E, counts_greedy by lia.
    cbn [Sre.first_some Nat.ltb Nat.leb andb].
    destruct (Sre.at_end (skipn (S d) rest)); [reflexivity|].
    apply first_some_none. intros k Hk.
    apply in_rev, in_seq in Hk.
    destruct (@skipn_in_run trailing_mark rest k) as (c & r & Es & Hc); [lia|].
    rewrite Es. cbn [Sre.at_end].
    now rewrite (trailing_mark_not_newline c Hc).
Qed.

(** Dropping the rest of a match is moving on to its end. *)
Lemma sub_skip (p : Sre.pattern) (repl rest : str) :
  forall i k,
    k <= List.length rest ->
    Sre.sub_from p repl i rest k
    = Sre.sub_from p repl (i + k) (skipn k rest) 0.
Proof.
  induction rest as [|c r IH]; intros i k Hk.
  - simpl in Hk. assert (k = 0) by lia. subst. now rewrite Nat.add_0_r.
  - destruct k as [|k]; [now rewrite Nat.add_0_r|].
    cbn [Sre.sub_from skipn]. simpl in Hk. rewrite IH by lia.
    f_equal. lia.
Qed.

Lemma sub_trailing_end (rem : str) (i : nat) :
  Sre.at_end rem = true ->
  Sre.sub_from Slides.trailing_punctuation [] i rem 0 = rem.
Proof.
  destruct rem as [|c r]; cbn [Sre.at_end Sre.sub_from]; intros H.
  - now rewrite exec_trailing.
  - apply andb_true_iff in H as [Hc Hr]. destruct r; [|discriminate].
    apply N.eqb_eq in Hc. subst c. now rewrite !exec_trailing.
Qed.

Lemma sub_trailing_cons (c : char) (r : str) (i : nat) :
  Sre.sub_from Slides.trailing_punctuation [] i (c :: r) 0
  = if trailing_mark c
       && Sre.at_end (skipn (Sre.run_length trailing_mark (c :: r)) (c :: r))
    then skipn (Sre.run_length trailing_mark (c :: r)) (c :: r)
    else c :: Sre.sub_from Slides.trailing_punctuation [] (S i) r 0.
Proof.
  cbn [Sre.sub_from]. rewrite exec_trailing. cbn [Sre.run_length].
  destruct (trailing_mark c); [|reflexivity].
  cbn [Nat.ltb Nat.leb andb skipn].
  destruct (Sre.at_end (skipn (Sre.run_length trailing_mark r) r)) eqn:E;
    [|reflexivity].
  replace (i + S (Sre.run_length trailing_mark r) - i)
    with (S (Sre.run_length trailing_mark r)) by lia.
  cbn [app]. rewrite sub_skip by apply run_length_le.
  now apply sub_trailing_end.
Qed.

Lemma drop_while_app (cls : char -> bool) (a b : str) :
  drop_while cls (a ++ b)
  = if forallb cls a then drop_while cls b else drop_while cls a ++ b.
Proof.
  induction a as [|c a IH]; simpl; [reflexivity|].
  destruct (cls c); [exact IH | reflexivity].
Qed.

Lemma rstrip_set_cons (cls : char -> bool) (c : char) (s : str) :
  rstrip_set cls (c :: s)
  = if forallb cls (c :: s) then [] else c :: rstrip_set cls s.
Proof.
  unfold rstrip_set. simpl rev. rewrite drop_while_app, forallb_rev.
  cbn [forallb]. destruct (forallb cls s) eqn:Hs.
  - rewrite andb_true_r. simpl. destruct (cls c); simpl; [reflexivity|].
    assert (E : drop_while cls (rev s) = []).
    { rewrite <- forallb_rev in Hs. induction (rev s) as [|x l IH];
        [reflexivity|]. simpl in *. apply andb_true_iff in Hs as [Hx Hl].
      rewrite Hx. now apply IH. }
    now rewrite E.
  - rewrite andb_false_r, rev_app_distr. reflexivity.
Qed.

Lemma chop_newline_cons2 (c c2 : char) (r2 : str) :
  chop_newline (c :: c2 :: r2)
  = let (body, tail) := chop_newline (c2 :: r2) in (c :: body, tail).
Proof. reflexivity. Qed.

Lemma chop_newline_spec (s : str) :
  s = fst (chop_newline s) ++ snd (chop_newline s)
  /\ Sre.at_end (snd (chop_newline s)) = true
  /\ starts_ws (snd (chop_newline s)) = truthy (snd (chop_newline s)).
Proof.
  induction s as [|c r IH]; [now repeat split|].
  destruct r as [|c2 r2].
  - cbn [chop_newline].
    destruct (eqb_char c 10%N) eqn:E; cbn [fst snd app]; repeat split.
    + cbn [Sre.at_end]. now rewrite E.
    + apply N.eqb_eq in E. now subst c.
  - rewrite chop_newline_cons2.
    destruct (chop_newline (c2 :: r2)) as [b t]. cbn [fst snd] in *.
    destruct IH as (E & Ht & Hs). repeat split; [|exact Ht | exact Hs].
    simpl. now f_equal.
Qed.

Lemma chop_newline_snoc (x : str) :
  chop_newline (x ++ [10%N]) = (x, [10%N]).
Proof.
  induction x as [|c x IH]; [reflexivity|].
  change ((c :: x) ++ [10%N]) with (c :: (x ++ [10%N])).
  cbn [chop_newline]. rewrite IH. now destruct x.
Qed.

Lemma chop_newline_marks (x : str) :
  forallb trailing_mark x = true -> chop_newline x = (x, []).
Proof.
  induction x as [|c x IH]; [reflexivity|].
  cbn [forallb]. intros H. apply andb_true_iff in H as [Hc Hx].
  cbn [chop_newline]. rewrite (IH Hx).
  rewrite (trailing_mark_not_newline c Hc). now destruct x.
Qed.

Lemma rstrip_set_all (cls : char -> bool) (x : str) :
  forallb cls x = true -> rstrip_set cls x = [].
Proof.
  intros H. destruct x as [|c x]; [reflexivity|].
  now rewrite rstrip_set_cons, H.
Qed.

Lemma run_split (cls : char -> bool) (s : str) :
  s = firstn (Sre.run_length cls s) s ++ skipn (Sre.run_length cls s) s
  /\ forallb cls (firstn (Sre.run_length cls s) s) = true.
Proof.
  split; [symmetry; apply firstn_skipn|].
  induction s as [|c s IH]; [reflexivity|].
  cbn [Sre.run_length]. destruct (cls c) eqn:Hc; [|reflexivity].
  cbn [firstn forallb]. now rewrite Hc, IH.
Qed.

Lemma drop_trailing_cons (c : char) (r : str) :
  drop_trailing (c :: r)
  = if trailing_mark c
       && Sre.at_end (skipn (Sre.run_length trailing_mark (c :: r)) (c :: r))
    then skipn (Sre.run_length trailing_mark (c :: r)) (c :: r)
    else c :: drop_trailing r.
Proof.
  set (s := c :: r). set (n := Sre.run_length trailing_mark s).
  destruct (trailing_mark c && Sre.at_end (skipn n s)) eqn:Hcond.
  - apply andb_true_iff in Hcond as [Hc Hend].
    destruct (run_split trailing_mark s) as [Hs Hrun]. fold n in Hs, Hrun.
    unfold drop_trailing.
    destruct (skipn n s) as [|d rem] eqn:Erem.
    + rewrite app_nil_r in Hs. rewrite Hs at 1.
      rewrite (chop_newline_marks _ Hrun).
      now rewrite (rstrip_set_all _ _ Hrun).
    + cbn [Sre.at_end] in Hend. apply andb_true_iff in Hend as [Hd Hrem].
      destruct rem; [|discriminate]. apply N.eqb_eq in Hd. subst d.
      rewrite Hs at 1. rewrite chop_newline_snoc.
      now rewrite (rstrip_set_all _ _ Hrun).
  - unfold drop_trailing. subst s. cbn [chop_newline].
    destruct r as [|c2 r2].
    + cbn [Sre.run_length] in n. subst n.
      destruct (trailing_mark c) eqn:Hc; [discriminate Hcond|].
      destruct (eqb_char c 10%N); [reflexivity|].
      rewrite rstrip_set_cons. cbn [forallb]. now rewrite Hc.
    + destruct (chop_newline_spec (c2 :: r2)) as (E & Ht & Hs).
      destruct (chop_newline (c2 :: r2)) as [b t]. cbn [fst snd] in *.
      rewrite rstrip_set_cons.
      destruct (forallb trailing_mark (c :: b)) eqn:Hall; [|reflexivity].
      exfalso. cbn [forallb] in Hall.
      apply andb_true_iff in Hall as [Hc Hb].
      assert (Hn : n = S (List.length b)).
      { subst n.
        change (Sre.run_length trailing_mark (c :: c2 :: r2))
          with (if trailing_mark c
                then S (Sre.run_length trailing_mark (c2 :: r2)) else 0).
        rewrite Hc, E.
        rewrite run_length_prefix by exact Hb.
        destruct t as [|d t']; [simpl; lia|].
        simpl in Hs. cbn [Sre.run_length].
        destruct (trailing_mark d) eqn:Hd; [|lia].
        cbn [Sre.at_end] in Ht. apply andb_true_iff in Ht as [Ht _].
        now rewrite (trailing_mark_not_newline d Hd) in Ht. }
      rewrite Hn, Hc in Hcond. cbn [skipn andb] in Hcond.
      rewrite E, skipn_app_length in Hcond. congruence.
Qed.

(** X19: the substitution that removes trailing punctuation removes
    exactly the colons, hyphens and em dashes at the end of the title, or
    just before the newline that ends it, and nothing else. *)
Theorem trailing_punctuation_removed (s : str) :
  Sre.sub Slides.trailing_punctuation [] s = drop_trailing s.
Proof.
  assert (H : forall i,
             Sre.sub_from Slides.trailing_punctuation [] i s 0
             = drop_trailing s); [|apply H].
  induction s as [|c r IH]; intros i.
  - cbn [Sre.sub_from]. now rewrite exec_trailing.
  - rewrite sub_trailing_cons, drop_trailing_cons.
    destruct (_ && _); [reflexivity | now rewrite IH].
Qed.
